(** * checkin: a 64-day attendance record kept in one int64

    Shallow embedding of [checkin.go] (package [checkin]) and the
    properties of its operations.  A [CheckinRecord] is a Go [int64]; it
    is modelled as an integer of [Z] in the range of [int64], bit
    operations are the two's complement ones of [Z], and the wrap-around
    of the left shift is written out.  Run-time panics of Go (a negative
    shift count, an index out of range) are an explicit outcome. *)

From Stdlib Require Import ZArith Lia Bool List String Ascii Sorted SpecFloat.
From stdpp Require Import base list gmap strings.

(** stdpp keeps [simpl] and [cbn] from unfolding the append of strings; the
    proofs below compute with it. *)
Arguments String.append : clear simpl.

Local Open Scope Z_scope.

(** ** Go run-time model *)

Module Go.

(** What a Go function body can end in besides a value.  [FuelExhausted]
    is not a Go outcome: it marks a loop of the model that was given too
    few iterations, and is shown never to happen. *)
Inductive abort : Type :=
| NegativeShift
| IndexOutOfRange
| FuelExhausted.

Inductive outcome (A : Type) : Type :=
| Done (a : A)
| Panic (e : abort).
Arguments Done {A} a.
Arguments Panic {A} e.

Definition bind {A B : Type} (m : outcome A) (k : A -> outcome B) : outcome B :=
  match m with
  | Done a => k a
  | Panic e => Panic e
  end.

(** A [for] body either falls through to the next iteration or leaves the
    loop with [break]. *)
Inductive flow (St : Type) : Type :=
| Next (s : St)
| Break (s : St).
Arguments Next {St} s.
Arguments Break {St} s.

(** ** int64 *)

Definition min_int64 : Z := - 2 ^ 63.
Definition max_int64 : Z := 2 ^ 63 - 1.

Definition is_int64 (z : Z) : Prop := min_int64 <= z <= max_int64.

Definition is_int64b (z : Z) : bool := (min_int64 <=? z) && (z <=? max_int64).

(** The value an int64 operation keeps of its mathematical result: the
    low 64 bits, read as two's complement. *)
Definition wrap64 (z : Z) : Z :=
  let u := z mod 2 ^ 64 in
  if u <? 2 ^ 63 then u else u - 2 ^ 64.

(** [x << n] on int64 for a count that is known not to be negative. *)
Definition shl64 (x n : Z) : Z := wrap64 (Z.shiftl x n).

(** [x << n] on int64 with a count computed at run time: Go panics on a
    negative count; a count of 64 or more gives 0. *)
Definition shl (x n : Z) : outcome Z :=
  if n <? 0 then Panic NegativeShift else Done (shl64 x n).

End Go.

Import Go.

(** ** float64 *)

Module Float64.

(** A float64 is an IEEE 754 binary64 number, as the specification of
    floating-point arithmetic of the standard library has them: 53 bits
    of mantissa, exponents up to 1024. *)
Definition prec : Z := 53.
Definition emax : Z := 1024.

Definition float64 : Type := spec_float.

(** [float64(z)] for an integer: the nearest float64, ties to even. *)
Definition of_int (z : Z) : float64 := binary_normalize prec emax z 0 false.

(** [x / y] on float64: the quotient rounded to the nearest, ties to
    even. *)
Definition div (x y : float64) : float64 := SFdiv prec emax x y.

(** The constants [0.0] and [1.0]. *)
Definition zero : float64 := S754_zero false.
Definition one : float64 := S754_finite false 4503599627370496 (-52).

(** [x == y], [x < y] and [x <= y] on float64. *)
Definition eqb (x y : float64) : bool := SFeqb x y.
Definition ltb (x y : float64) : bool := SFltb x y.
Definition leb (x y : float64) : bool := SFleb x y.

End Float64.

Notation "'let*' x ':=' m 'in' k" := (Go.bind m (fun x => k))
  (at level 10, x pattern, m at level 100, k at level 200).

(** [for i := lo; i < hi; i++ { body }], where the body changes neither [i]
    nor [hi]: the number of iterations is [hi - lo]. *)
Fixpoint for_iter {St : Type} (n : nat) (i : Z)
    (body : Z -> St -> outcome (flow St)) (s : St) : outcome St :=
  match n with
  | O => Done s
  | S n' =>
      let* r := body i s in
      match r with
      | Next s' => for_iter n' (i + 1) body s'
      | Break s' => Done s'
      end
  end.

Definition for_range {St : Type} (lo hi : Z)
    (body : Z -> St -> outcome (flow St)) (s : St) : outcome St :=
  for_iter (Z.to_nat (hi - lo)) lo body s.

(** ** Strings, runes and fmt *)

Module Utf8.

(** A Go string is a sequence of bytes, as [string] is here; a string
    literal holds the UTF-8 encoding of its text in both. *)

Definition rune : Type := Z.

Definition RuneError : rune := 0xFFFD.

Definition byte_val (a : ascii) : Z := Z.of_N (N_of_ascii a).

Definition byte_of (z : Z) : ascii := ascii_of_N (Z.to_N z).

(** First byte of an encoded rune: what [unicode/utf8] reads off its
    table [first]: the length of the sequence and the range the second
    byte has to be in. *)
Inductive lead : Type :=
| Single
| Invalid
| Multi (size : nat) (lo hi : Z).

Definition classify (b0 : Z) : lead :=
  if b0 <? 0x80 then Single
  else if b0 <? 0xC2 then Invalid
  else if b0 <? 0xE0 then Multi 2 0x80 0xBF
  else if b0 =? 0xE0 then Multi 3 0xA0 0xBF
  else if b0 =? 0xED then Multi 3 0x80 0x9F
  else if b0 <? 0xF0 then Multi 3 0x80 0xBF
  else if b0 =? 0xF0 then Multi 4 0x90 0xBF
  else if b0 <? 0xF4 then Multi 4 0x80 0xBF
  else if b0 =? 0xF4 then Multi 4 0x80 0x8F
  else Invalid.

Definition between (lo hi b : Z) : bool := (lo <=? b) && (b <=? hi).

Definition cont (b : Z) : bool := between 0x80 0xBF b.

(** [[]rune(s)]: decode rune after rune; a byte that starts no valid
    sequence gives [RuneError] and is skipped alone. *)
Fixpoint runes_of_string (s : string) : list rune :=
  match s with
  | EmptyString => []
  | String a0 rest =>
      let b0 := byte_val a0 in
      let bad := RuneError :: runes_of_string rest in
      match classify b0 with
      | Single => b0 :: runes_of_string rest
      | Invalid => bad
      | Multi size lo hi =>
          match rest with
          | EmptyString => bad
          | String a1 rest1 =>
              let b1 := byte_val a1 in
              if negb (between lo hi b1) then bad
              else if (size <=? 2)%nat then
                Z.lor (Z.shiftl (Z.land b0 0x1F) 6) (Z.land b1 0x3F)
                  :: runes_of_string rest1
              else
                match rest1 with
                | EmptyString => bad
                | String a2 rest2 =>
                    let b2 := byte_val a2 in
                    if negb (cont b2) then bad
                    else if (size <=? 3)%nat then
                      Z.lor (Z.lor (Z.shiftl (Z.land b0 0x0F) 12)
                                   (Z.shiftl (Z.land b1 0x3F) 6))
                            (Z.land b2 0x3F)
                        :: runes_of_string rest2
                    else
                      match rest2 with
                      | EmptyString => bad
                      | String a3 rest3 =>
                          let b3 := byte_val a3 in
                          if negb (cont b3) then bad
                          else
                            Z.lor (Z.lor (Z.lor (Z.shiftl (Z.land b0 0x07) 18)
                                                (Z.shiftl (Z.land b1 0x3F) 12))
                                         (Z.shiftl (Z.land b2 0x3F) 6))
                                  (Z.land b3 0x3F)
                              :: runes_of_string rest3
                      end
                end
          end
      end
  end.

Definition bytes (l : list Z) : string :=
  fold_right (fun b s => String (byte_of b) s) EmptyString l.

(** The encoding of one rune ([utf8.AppendRune]); a value that is no
    Unicode scalar is encoded as [RuneError]. *)
Definition encode_rune (r : rune) : string :=
  if (0 <=? r) && (r <=? 0x7F) then bytes [r]
  else if (0 <=? r) && (r <=? 0x7FF) then
    bytes [Z.lor 0xC0 (Z.shiftr r 6); Z.lor 0x80 (Z.land r 0x3F)]
  else if (r <? 0) || (0x10FFFF <? r) || between 0xD800 0xDFFF r then
    bytes [0xEF; 0xBF; 0xBD]
  else if r <=? 0xFFFF then
    bytes [Z.lor 0xE0 (Z.shiftr r 12);
           Z.lor 0x80 (Z.land (Z.shiftr r 6) 0x3F);
           Z.lor 0x80 (Z.land r 0x3F)]
  else
    bytes [Z.lor 0xF0 (Z.shiftr r 18);
           Z.lor 0x80 (Z.land (Z.shiftr r 12) 0x3F);
           Z.lor 0x80 (Z.land (Z.shiftr r 6) 0x3F);
           Z.lor 0x80 (Z.land r 0x3F)].

(** [string(runes)]. *)
Fixpoint string_of_runes (rs : list rune) : string :=
  match rs with
  | [] => EmptyString
  | r :: rs' => (encode_rune r ++ string_of_runes rs')%string
  end.

End Utf8.

Import Utf8.

Module Fmt.

(** The verb [%b] of package [fmt] on a signed integer ([fmtInteger] with
    base 2): a minus sign for a negative value, then the digits of the
    magnitude, written from the last digit backwards. *)
Fixpoint digits2 (u : positive) (buf : string) : string :=
  match u with
  | xH => String "1" buf
  | xO u' => digits2 u' (String "0" buf)
  | xI u' => digits2 u' (String "1" buf)
  end.

Definition verb_b (v : Z) : string :=
  match v with
  | Z0 => "0"%string
  | Zpos u => digits2 u EmptyString
  | Zneg u => String "-" (digits2 u EmptyString)
  end.

End Fmt.

(** ** The record and its operations (checkin.go) *)

Definition CheckinRecord : Type := Z.

Definition NewCheckinRecord : CheckinRecord := 0.

Definition FromInt64 (value : Z) : CheckinRecord := value.

Definition ToInt64 (c : CheckinRecord) : Z := c.

Definition Checkin (c : CheckinRecord) : CheckinRecord := Z.lor c 1.

Definition CheckinDay (c : CheckinRecord) (day : Z) : outcome CheckinRecord :=
  if (day <? 0) || (day >=? 64) then Done c
  else
    let* m := shl 1 day in
    Done (Z.lor c m).

Definition IsCheckedToday (c : CheckinRecord) : bool := Z.land c 1 =? 1.

Definition IsCheckedDay (c : CheckinRecord) (day : Z) : outcome bool :=
  if (day <? 0) || (day >=? 64) then Done false
  else
    let* m := shl 1 day in
    Done (negb (Z.land c m =? 0)).

Definition ContinuousDays (c : CheckinRecord) : outcome Z :=
  for_range 0 64
    (fun i count =>
       let* m := shl 1 i in
       if negb (Z.land c m =? 0) then Done (Next (count + 1))
       else Done (Break count))
    0.

Definition TotalDaysInPeriod (c : CheckinRecord) (days : Z) : outcome Z :=
  let days := if (days <=? 0) || (days >? 64) then 64 else days in
  for_range 0 days
    (fun i count =>
       let* m := shl 1 i in
       if negb (Z.land c m =? 0) then Done (Next (count + 1))
       else Done (Next count))
    0.

Definition ShiftDay (c : CheckinRecord) : CheckinRecord := shl64 c 1.

Definition Clear (c : CheckinRecord) : CheckinRecord := 0.

(** [strings.Builder.WriteString] appends to the string built so far; the
    two glyphs are U+2713 and U+2717, three bytes each. *)
Definition checked_glyph : string := "✓".
Definition missed_glyph : string := "✗".

(** [runes[i], runes[j] = runes[j], runes[i]]; indexing outside the slice
    panics. *)
Definition swap (runes : list rune) (i j : Z) : outcome (list rune) :=
  if (i <? 0) || (j <? 0) then Panic IndexOutOfRange
  else
    match runes !! Z.to_nat i, runes !! Z.to_nat j with
    | Some ri, Some rj => Done (<[Z.to_nat i := rj]> (<[Z.to_nat j := ri]> runes))
    | _, _ => Panic IndexOutOfRange
    end.

(** [for i, j := ..; i < j; i, j = i+1, j-1 { swap }] *)
Fixpoint reverse_loop (fuel : nat) (i j : Z) (runes : list rune)
    : outcome (list rune) :=
  if i <? j then
    match fuel with
    | O => Panic FuelExhausted
    | S fuel' =>
        let* runes' := swap runes i j in
        reverse_loop fuel' (i + 1) (j - 1) runes'
    end
  else Done runes.

Definition StringWithDays (c : CheckinRecord) (days : Z) : outcome string :=
  let days := if (days <=? 0) || (days >? 64) then 64 else days in
  let* str :=
    for_range 0 days
      (fun i result =>
         let* m := shl 1 i in
         if negb (Z.land c m =? 0) then Done (Next (result ++ checked_glyph)%string)
         else Done (Next (result ++ missed_glyph)%string))
      EmptyString in
  let runes := runes_of_string str in
  let len := Z.of_nat (length runes) in
  let* runes := reverse_loop (length runes) 0 (len - 1) runes in
  Done (string_of_runes runes).

(** The method [String] of the source; [String] is the constructor of
    strings here. *)
Definition String_ (c : CheckinRecord) : outcome string := StringWithDays c 7.

(** [fmt.Sprintf("0b%b", c)].  The verb [%b] formats the int64 itself: fmt
    calls a [String] method for the verbs of strings only. *)
Definition Binary (c : CheckinRecord) : string :=
  ("0b" ++ Fmt.verb_b c)%string.

Definition MaxContinuousDays (c : CheckinRecord) : outcome Z :=
  if c =? 0 then Done 0
  else
    let* r :=
      for_range 0 64
        (fun i '(maxCount, currentCount) =>
           let* m := shl 1 i in
           if negb (Z.land c m =? 0) then
             let currentCount := currentCount + 1 in
             let maxCount :=
               if currentCount >? maxCount then currentCount else maxCount in
             Done (Next (maxCount, currentCount))
           else Done (Next (maxCount, 0)))
        (0, 0) in
    Done (fst r).

(** The two conversions and the division are those of float64, each
    rounded to the nearest. *)
Definition CheckinRate (c : CheckinRecord) (days : Z) : outcome Float64.float64 :=
  if days <=? 0 then Done Float64.zero
  else
    let* total := TotalDaysInPeriod c days in
    Done (Float64.div (Float64.of_int total) (Float64.of_int days)).

(** ** Words used in the statements *)

(** Bit [i] of the 64-bit pattern of a record, for [0 <= i < 64]. *)
Definition bit (c : CheckinRecord) (i : Z) : bool := Z.testbit c i.

(** The window length after clamping. *)
Definition clampedDays (days : Z) : Z :=
  if (days <=? 0) || (days >? 64) then 64 else days.

(** Number of set bits among the indices [0, n). *)
Definition popcount (c : CheckinRecord) (n : Z) : Z :=
  Z.of_nat (length (List.filter (bit c) (seqZ 0 n))).

(** All bits of the indices [s, s + l) are set. *)
Definition run (c : CheckinRecord) (s l : Z) : Prop :=
  forall j, s <= j < s + l -> bit c j = true.

(** [m] is the length of the longest run inside the indices [0, k). *)
Definition longest_run (c : CheckinRecord) (k m : Z) : Prop :=
  (exists s, 0 <= s /\ s + m <= k /\ run c s m) /\
  (forall s l, 0 <= s -> 0 <= l -> s + l <= k -> run c s l -> l <= m).

(** What the scan of [MaxContinuousDays] knows when it reaches index [k]:
    [currentCount] is the length of the run that ends just below [k], and
    [maxCount] the longest run below [k]. *)
Definition scan_inv (c : CheckinRecord) (k : Z) (st : Z * Z) : Prop :=
  let '(maxCount, currentCount) := st in
  0 <= currentCount <= maxCount /\ maxCount <= k /\
  run c (k - currentCount) currentCount /\
  (currentCount = k \/ bit c (k - currentCount - 1) = false) /\
  longest_run c k maxCount.

(** The rune of a day's glyph. *)
Definition glyph (b : bool) : rune := if b then 0x2713 else 0x2717.

(** The bit pattern as the specification words it for [Binary]: the bits
    [n-1 .. 0], the most significant first, and the same without the zero
    bits in front. *)
Fixpoint pattern (c : CheckinRecord) (n : nat) : string :=
  match n with
  | O => EmptyString
  | S n' => String (if bit c (Z.of_nat n') then "1" else "0")%char (pattern c n')
  end.

Fixpoint strip_zeros (s : string) : string :=
  match s with
  | EmptyString => EmptyString
  | String a s' => if Ascii.eqb a "0" then strip_zeros s' else s
  end.

Definition raw_pattern (c : CheckinRecord) : string := strip_zeros (pattern c 64).

(** The encoded glyph of a day, and the string of a sequence of days. *)
Definition glyph_string (b : bool) : string :=
  if b then checked_glyph else missed_glyph.

Fixpoint glyphs (bs : list bool) : string :=
  match bs with
  | [] => EmptyString
  | b :: bs' => (glyph_string b ++ glyphs bs')%string
  end.

(** The days [0 .. n-1] of a record, today first. *)
Definition day_bits (c : CheckinRecord) (n : Z) : list bool :=
  bit c <$> seqZ 0 n.

(** What is checked, by evaluation, of the quotient of [t] days over a
    window of [d] days: it lies between 0 and 1 and is 1 only if
    [t = d]. *)
Definition small_ratio_ok (d t : Z) : bool :=
  let r := Float64.div (Float64.of_int t) (Float64.of_int d) in
  Float64.leb Float64.zero r && Float64.leb r Float64.one &&
  Bool.eqb (Float64.eqb r Float64.one) (t =? d).

(** ** The bitmap (checkin.go) *)

(** [s[i] = v] on a slice; an index outside the slice panics. *)
Definition assign {A : Type} (s : list A) (i : Z) (v : A) : outcome (list A) :=
  if (i <? 0) || (Z.of_nat (length s) <=? i) then Panic IndexOutOfRange
  else Done (<[Z.to_nat i := v]> s).

Definition GetDaysBitmap (c : CheckinRecord) (days : Z) : outcome (list bool) :=
  let days := if (days <=? 0) || (days >? 64) then 64 else days in
  for_range 0 days
    (fun i result =>
       let* m := shl 1 i in
       let* result := assign result i (negb (Z.land c m =? 0)) in
       Done (Next result))
    (replicate (Z.to_nat days) false).

(** Number of days checked in a bitmap. *)
Definition count_true (bm : list bool) : Z :=
  Z.of_nat (length (List.filter (fun b : bool => b) bm)).

(** ** The database of the service *)

Module Sql.

(** The errors the model of the database gives: no row for a query of one
    row, a second row for a primary key, and no connection. *)
Inductive error : Type :=
| ErrNoRows
| ErrDuplicateEntry
| ErrBadConn.

(** The table [user_checkin] of [CreateTableSQL]: [user_id] is the primary
    key and [record] is never NULL, so the table is a finite map from the
    one to the other.  [online] says whether statements reach the server;
    when they do not, every statement fails and changes nothing. *)
Record DB : Type := {
  online : bool;
  user_checkin : gmap Z Z
}.

(** [SELECT record FROM user_checkin WHERE user_id = ?], scanned into an
    int64. *)
Definition select_record (db : DB) (userID : Z) : error + Z :=
  if online db then
    match user_checkin db !! userID with
    | Some record => inr record
    | None => inl ErrNoRows
    end
  else inl ErrBadConn.

(** [INSERT INTO user_checkin (user_id, record) VALUES (?, ?)] *)
Definition insert_record (db : DB) (userID record : Z) : DB * option error :=
  if online db then
    match user_checkin db !! userID with
    | Some _ => (db, Some ErrDuplicateEntry)
    | None =>
        ({| online := true; user_checkin := <[userID := record]> (user_checkin db) |},
         None)
    end
  else (db, Some ErrBadConn).

(** [UPDATE user_checkin SET record = ?, updated_at = NOW() WHERE
    user_id = ?]; no row to update is no error. *)
Definition update_record (db : DB) (userID record : Z) : DB * option error :=
  if online db then
    ({| online := true;
        user_checkin := alter (fun _ => record) userID (user_checkin db) |},
     None)
  else (db, Some ErrBadConn).

End Sql.

(** ** The service (the MySQL example of the repository) *)

(** A value of [interface{}] as the service puts them in its maps. *)
Inductive value : Type :=
| VInt (n : Z)
| VFloat (f : Float64.float64)
| VString (s : string)
| VBools (bs : list bool).

(** [s[i]]; an index outside the slice panics. *)
Definition at_index {A : Type} (s : list A) (i : Z) : outcome A :=
  if i <? 0 then Panic IndexOutOfRange
  else
    match s !! Z.to_nat i with
    | Some x => Done x
    | None => Panic IndexOutOfRange
    end.

(** [s[i], s[j] = s[j], s[i]] *)
Definition swap_at {A : Type} (s : list A) (i j : Z) : outcome (list A) :=
  let* si := at_index s i in
  let* sj := at_index s j in
  let* s := assign s i sj in
  assign s j si.

(** [s[:hi]] for a slice whose capacity is its length. *)
Definition slice_to {A : Type} (s : list A) (hi : Z) : outcome (list A) :=
  if (hi <? 0) || (Z.of_nat (length s) <? hi) then Panic IndexOutOfRange
  else Done (take (Z.to_nat hi) s).

Module CheckinService.

(** The errors [UserCheckin] returns: the error of the query, wrapped; the
    refusal of a second check-in of the day; the error of the statement
    that stores the record. *)
Inductive error : Type :=
| QueryFailed (e : Sql.error)
| AlreadyCheckedToday
| ExecFailed (e : Sql.error).

Definition UserCheckin (db : Sql.DB) (userID : Z) : Sql.DB * option error :=
  let scanned :=
    match Sql.select_record db userID with
    | inl Sql.ErrNoRows => inr 0
    | inl e => inl e
    | inr dbValue => inr dbValue
    end in
  match scanned with
  | inl e => (db, Some (QueryFailed e))
  | inr dbValue =>
      let record := FromInt64 dbValue in
      if IsCheckedToday record then (db, Some AlreadyCheckedToday)
      else
        let record := Checkin record in
        let newValue := ToInt64 record in
        let '(db, err) :=
          if dbValue =? 0 then Sql.insert_record db userID newValue
          else Sql.update_record db userID newValue in
        (db, ExecFailed <$> err)
  end.

Definition GetUserCheckinStats (db : Sql.DB) (userID : Z)
    : outcome (Sql.error + gmap string value) :=
  match Sql.select_record db userID with
  | inl Sql.ErrNoRows =>
      Done (inr (list_to_map
        [("continuous_days", VInt 0);
         ("total_7days", VInt 0);
         ("total_30days", VInt 0);
         ("max_continuous", VInt 0);
         ("rate_7days", VFloat Float64.zero);
         ("recent_7days", VString "✗✗✗✗✗✗✗")]))
  | inl e => Done (inl e)
  | inr dbValue =>
      let record := FromInt64 dbValue in
      let* continuous := ContinuousDays record in
      let* total7 := TotalDaysInPeriod record 7 in
      let* total30 := TotalDaysInPeriod record 30 in
      let* longest := MaxContinuousDays record in
      let* rate := CheckinRate record 7 in
      let* recent := StringWithDays record 7 in
      let* bitmap := GetDaysBitmap record 7 in
      Done (inr (list_to_map
        [("continuous_days", VInt continuous);
         ("total_7days", VInt total7);
         ("total_30days", VInt total30);
         ("max_continuous", VInt longest);
         ("rate_7days", VFloat rate);
         ("recent_7days", VString recent);
         ("bitmap_7days", VBools bitmap)]))
  end.

(** The method [IsCheckedToday] of the service. *)
Definition IsCheckedToday_ (db : Sql.DB) (userID : Z) : Sql.error + bool :=
  match Sql.select_record db userID with
  | inl Sql.ErrNoRows => inr false
  | inl e => inl e
  | inr dbValue => inr (IsCheckedToday (FromInt64 dbValue))
  end.

Record userRank : Type := {
  rank_UserID : Z;
  rank_Record : Z;
  rank_ContinuousDays : Z
}.

(** [for rows.Next() { ... ranks = append(ranks, r) }] over the rows of
    the result set, each scanned without error. *)
Fixpoint scan_rows (rows : list (Z * Z)) (ranks : list userRank)
    : outcome (list userRank) :=
  match rows with
  | [] => Done ranks
  | (userID, dbValue) :: rows' =>
      let record := FromInt64 dbValue in
      let* continuous := ContinuousDays record in
      scan_rows rows'
        (ranks ++ [{| rank_UserID := userID; rank_Record := dbValue;
                      rank_ContinuousDays := continuous |}])
  end.

(** The sort of the ranks, a bubble sort: the body of the inner loop, the
    inner loop and the outer loop.  The length of the slice, which bounds
    both loops, does not change in them. *)
Definition compare_swap (j : Z) (ranks : list userRank)
    : outcome (flow (list userRank)) :=
  let* a := at_index ranks j in
  let* b := at_index ranks (j + 1) in
  if rank_ContinuousDays a <? rank_ContinuousDays b then
    let* ranks := swap_at ranks j (j + 1) in
    Done (Next ranks)
  else Done (Next ranks).

Definition bubble_pass (i : Z) (ranks : list userRank)
    : outcome (flow (list userRank)) :=
  let* ranks :=
    for_range 0 (Z.of_nat (length ranks) - i - 1) compare_swap ranks in
  Done (Next ranks).

Definition sort_ranks (ranks : list userRank) : outcome (list userRank) :=
  for_range 0 (Z.of_nat (length ranks) - 1) bubble_pass ranks.

(** The map of one rank in the answer. *)
Definition rank_entry (r : userRank) : outcome (gmap string value) :=
  let record := FromInt64 (rank_Record r) in
  let* total7 := TotalDaysInPeriod record 7 in
  let* recent := StringWithDays record 7 in
  Done (list_to_map
    [("user_id", VInt (rank_UserID r));
     ("continuous_days", VInt (rank_ContinuousDays r));
     ("total_7days", VInt total7);
     ("recent", VString recent)]).

(** [GetCheckinLeaderboard] from the rows its query returned on; the query
    and the errors of the database are left out. *)
Definition GetCheckinLeaderboard (rows : list (Z * Z)) (limit : Z)
    : outcome (list (gmap string value)) :=
  let* ranks := scan_rows rows [] in
  let* ranks := sort_ranks ranks in
  let* ranks :=
    if Z.of_nat (length ranks) >? limit then slice_to ranks limit
    else Done ranks in
  for_range 0 (Z.of_nat (length ranks))
    (fun i result =>
       let* r := at_index ranks i in
       let* entry := rank_entry r in
       let* result := assign result i entry in
       Done (Next result))
    (replicate (length ranks) ∅).

(** What one pass of the sort does to a slice that starts with [x]: the
    least streak sinks to the end. *)
Fixpoint bubble_from (x : userRank) (l : list userRank) : list userRank :=
  match l with
  | [] => [x]
  | y :: l' =>
      if rank_ContinuousDays x <? rank_ContinuousDays y then y :: bubble_from x l'
      else x :: bubble_from y l'
  end.

(** [a] may stand before [b] in the leaderboard. *)
Definition by_streak (a b : userRank) : Prop :=
  rank_ContinuousDays b <= rank_ContinuousDays a.

(** The rank of a row: the row and the streak of its record. *)
Definition ranked (row : Z * Z) (r : userRank) : Prop :=
  rank_UserID r = row.1 /\ rank_Record r = row.2 /\
  ContinuousDays (FromInt64 row.2) = Done (rank_ContinuousDays r).

(** The map of a rank, with the values of its entries written out. *)
Definition entry_of (r : userRank) : gmap string value :=
  list_to_map
    [("user_id", VInt (rank_UserID r));
     ("continuous_days", VInt (rank_ContinuousDays r));
     ("total_7days", VInt (popcount (rank_Record r) 7));
     ("recent", VString (glyphs (reverse (day_bits (rank_Record r) 7))))].

End CheckinService.

(** ** int64 and its bits *)

Section Int64.

Lemma pow2_64 : 2 ^ 64 = 18446744073709551616.
Proof. reflexivity. Qed.

Lemma pow2_63 : 2 ^ 63 = 9223372036854775808.
Proof. reflexivity. Qed.

Lemma is_int64b_spec z : is_int64b z = true <-> is_int64 z.
Proof. unfold is_int64b, is_int64. rewrite andb_true_iff, !Z.leb_le. tauto. Qed.

Lemma wrap64_range z : is_int64 (wrap64 z).
Proof.
  unfold wrap64, is_int64, min_int64, max_int64.
  pose proof (Z.mod_pos_bound z (2 ^ 64) eq_refl) as Hm.
  rewrite pow2_64 in *. rewrite pow2_63.
  destruct (Z.ltb_spec (z mod 18446744073709551616) 9223372036854775808); lia.
Qed.

Lemma wrap64_id z : is_int64 z -> wrap64 z = z.
Proof.
  unfold wrap64, is_int64, min_int64, max_int64. rewrite pow2_64, pow2_63.
  intros Hz. destruct (Z_lt_dec z 0) as [Hneg | Hpos].
  - replace (z mod 18446744073709551616) with (z + 18446744073709551616).
    + destruct (Z.ltb_spec (z + 18446744073709551616) 9223372036854775808); lia.
    + apply Z.mod_unique with (q := -1); lia.
  - rewrite Z.mod_small by lia.
    destruct (Z.ltb_spec z 9223372036854775808); lia.
Qed.

Lemma wrap64_mod z : wrap64 z mod 2 ^ 64 = z mod 2 ^ 64.
Proof.
  unfold wrap64.
  destruct (Z.ltb_spec (z mod 2 ^ 64) (2 ^ 63)).
  - apply Z.mod_mod. discriminate.
  - replace (z mod 2 ^ 64 - 2 ^ 64) with (z mod 2 ^ 64 + (-1) * 2 ^ 64) by lia.
    rewrite Z.mod_add by discriminate. apply Z.mod_mod. discriminate.
Qed.

Lemma testbit_wrap64 z k : 0 <= k < 64 -> Z.testbit (wrap64 z) k = Z.testbit z k.
Proof.
  intros Hk.
  rewrite <- (Z.mod_pow2_bits_low (wrap64 z) 64 k) by lia.
  rewrite wrap64_mod. apply Z.mod_pow2_bits_low. lia.
Qed.

(** Above bit 63 an int64, read as an integer of [Z], repeats its sign
    bit. *)
Lemma int64_sign_bits c k : is_int64 c -> 63 <= k -> Z.testbit c k = Z.testbit c 63.
Proof.
  unfold is_int64, min_int64, max_int64. intros Hc Hk.
  destruct (Z_lt_dec c 0) as [Hneg | Hpos].
  - assert (Hn : forall i, 63 <= i -> Z.testbit c i = true).
    { intros i Hi. rewrite <- (Z.lnot_involutive c), Z.lnot_spec by lia.
      rewrite <- (Z.mod_small (Z.lnot c) (2 ^ 63)).
      - rewrite Z.mod_pow2_bits_high by lia. reflexivity.
      - unfold Z.lnot. lia. }
    rewrite !Hn by lia. reflexivity.
  - assert (Hn : forall i, 63 <= i -> Z.testbit c i = false).
    { intros i Hi. rewrite <- (Z.mod_small c (2 ^ 63)) by lia.
      apply Z.mod_pow2_bits_high. lia. }
    rewrite !Hn by lia. reflexivity.
Qed.

(** Two int64 with the same 64 bits are the same value. *)
Lemma int64_bits_inj a b :
  is_int64 a -> is_int64 b ->
  (forall k, 0 <= k < 64 -> Z.testbit a k = Z.testbit b k) -> a = b.
Proof.
  intros Ha Hb Hbits. apply Z.bits_inj'. intros k Hk.
  destruct (Z_lt_dec k 64) as [Hlt | Hge].
  - apply Hbits. lia.
  - rewrite (int64_sign_bits a k), (int64_sign_bits b k) by (assumption || lia).
    apply Hbits. lia.
Qed.

Lemma shl_count x n : 0 <= n -> shl x n = Done (shl64 x n).
Proof. intros Hn. unfold shl. destruct (Z.ltb_spec n 0); [lia | reflexivity]. Qed.

Lemma shl64_range x n : is_int64 (shl64 x n).
Proof. apply wrap64_range. Qed.

(** The mask [1 << i] has bit [i] set and no other of the 64. *)
Lemma testbit_mask i k :
  0 <= i < 64 -> 0 <= k < 64 -> Z.testbit (shl64 1 i) k = (k =? i).
Proof.
  intros Hi Hk. unfold shl64. rewrite testbit_wrap64 by lia.
  rewrite Z.shiftl_1_l. rewrite Z.pow2_bits_eqb by lia. apply Z.eqb_sym.
Qed.

Lemma mask_nonzero i : 0 <= i < 64 -> shl64 1 i <> 0.
Proof.
  intros Hi Hz. pose proof (testbit_mask i i Hi Hi) as Hb.
  rewrite Hz, Z.bits_0, Z.eqb_refl in Hb. discriminate.
Qed.

(** [c & (1 << i)] is the mask or zero, as bit [i] is set or not. *)
Lemma land_mask c i :
  is_int64 c -> 0 <= i < 64 ->
  Z.land c (shl64 1 i) = if Z.testbit c i then shl64 1 i else 0.
Proof.
  intros Hc Hi.
  assert (Hm : forall k, 0 <= k ->
             Z.testbit (shl64 1 i) k = if k <? 64 then k =? i else i =? 63).
  { intros k Hk. destruct (Z.ltb_spec k 64).
    - apply testbit_mask; lia.
    - rewrite (int64_sign_bits _ k (shl64_range 1 i)) by lia.
      rewrite testbit_mask by lia. apply Z.eqb_sym. }
  apply Z.bits_inj'. intros k Hk. rewrite Z.land_spec, Hm by lia.
  destruct (Z.testbit c i) eqn:Hci.
  - rewrite Hm by lia. destruct (Z.ltb_spec k 64).
    + destruct (Z.eqb_spec k i); [subst; rewrite Hci | rewrite andb_false_r];
        reflexivity.
    + destruct (Z.eqb_spec i 63); [| apply andb_false_r].
      subst. rewrite (int64_sign_bits c k Hc), Hci by lia. reflexivity.
  - rewrite Z.bits_0. destruct (Z.ltb_spec k 64).
    + destruct (Z.eqb_spec k i); [subst; rewrite Hci | rewrite andb_false_r];
        reflexivity.
    + destruct (Z.eqb_spec i 63); [| apply andb_false_r].
      subst. rewrite (int64_sign_bits c k Hc), Hci by lia. reflexivity.
Qed.

(** The test [(c & (1 << i)) != 0] of the source reads bit [i]. *)
Lemma bit_test c i :
  is_int64 c -> 0 <= i < 64 -> negb (Z.land c (shl64 1 i) =? 0) = bit c i.
Proof.
  intros Hc Hi. rewrite land_mask by assumption. unfold bit.
  destruct (Z.testbit c i); [| reflexivity].
  destruct (Z.eqb_spec (shl64 1 i) 0) as [Hz | _]; [| reflexivity].
  exfalso. exact (mask_nonzero i Hi Hz).
Qed.

(** An integer whose bits from 63 upwards all equal bit 63 is an int64. *)
Lemma int64_of_sign_bits c :
  (forall k, 63 <= k -> Z.testbit c k = Z.testbit c 63) -> is_int64 c.
Proof.
  intros Hs.
  assert (Hlow : forall a, (forall k, 63 <= k -> Z.testbit a k = false) ->
                           0 <= a < 2 ^ 63).
  { intros a Ha. assert (Hmod : a mod 2 ^ 63 = a).
    { apply Z.bits_inj'. intros k Hk. destruct (Z_lt_dec k 63).
      - apply Z.mod_pow2_bits_low. lia.
      - rewrite Z.mod_pow2_bits_high, Ha by lia. reflexivity. }
    rewrite <- Hmod. apply Z.mod_pos_bound. reflexivity. }
  unfold is_int64, min_int64, max_int64.
  destruct (Z.testbit c 63) eqn:Hc.
  - assert (Hn : 0 <= Z.lnot c < 2 ^ 63).
    { apply Hlow. intros k Hk. rewrite Z.lnot_spec, Hs by lia. reflexivity. }
    unfold Z.lnot in Hn. lia.
  - pose proof (Hlow c Hs) as Hp. lia.
Qed.

Lemma lor_int64 a b : is_int64 a -> is_int64 b -> is_int64 (Z.lor a b).
Proof.
  intros Ha Hb. apply int64_of_sign_bits. intros k Hk.
  rewrite !Z.lor_spec, (int64_sign_bits a k), (int64_sign_bits b k)
    by (assumption || lia).
  reflexivity.
Qed.

End Int64.

(** ** Loops *)

Section ForLoop.

Context {St : Type}.
Variable body : Z -> St -> outcome (flow St).
Variable Inv : Z -> St -> Prop.
Variable Exit : St -> Prop.

(** A loop whose body keeps the invariant, or breaks in a state of
    [Exit], ends without a panic, in the invariant at the bound or in
    [Exit]. *)
Lemma for_iter_rule n : forall i s,
  Inv i s ->
  (forall k t, i <= k < i + Z.of_nat n -> Inv k t ->
     (exists t', body k t = Done (Next t') /\ Inv (k + 1) t') \/
     (exists t', body k t = Done (Break t') /\ Exit t')) ->
  exists t, for_iter n i body s = Done t /\ (Inv (i + Z.of_nat n) t \/ Exit t).
Proof.
  induction n as [| n IH]; intros i s Hinv Hstep.
  - exists s. split; [reflexivity |]. left. now rewrite Z.add_0_r.
  - destruct (Hstep i s ltac:(lia) Hinv) as [(t' & Hb & Ht') | (t' & Hb & Ht')].
    + destruct (IH (i + 1) t' Ht') as (t & Hrun & Hpost).
      { intros k t Hk. apply Hstep. lia. }
      exists t. split; [cbn; rewrite Hb; exact Hrun |].
      replace (i + Z.of_nat (S n)) with (i + 1 + Z.of_nat n) by lia. exact Hpost.
    + exists t'. split; [cbn; rewrite Hb; reflexivity |]. now right.
Qed.

Lemma for_range_rule lo hi s :
  lo <= hi ->
  Inv lo s ->
  (forall k t, lo <= k < hi -> Inv k t ->
     (exists t', body k t = Done (Next t') /\ Inv (k + 1) t') \/
     (exists t', body k t = Done (Break t') /\ Exit t')) ->
  exists t, for_range lo hi body s = Done t /\ (Inv hi t \/ Exit t).
Proof.
  intros Hle Hinv Hstep. unfold for_range.
  destruct (for_iter_rule (Z.to_nat (hi - lo)) lo s Hinv) as (t & Hrun & Hpost).
  - intros k t Hk. apply Hstep. lia.
  - exists t. split; [exact Hrun |].
    replace (lo + Z.of_nat (Z.to_nat (hi - lo))) with hi in Hpost by lia.
    exact Hpost.
Qed.

End ForLoop.

(** ** Marking days *)

Lemma IsCheckedDay_bit c day :
  is_int64 c -> 0 <= day < 64 -> IsCheckedDay c day = Done (bit c day).
Proof.
  intros Hc Hd. unfold IsCheckedDay.
  destruct (Z.ltb_spec day 0); [lia |]. destruct (Z.geb_spec day 64); [lia |].
  cbn [orb]. rewrite shl_count by lia. cbn [bind].
  now rewrite bit_test.
Qed.

Lemma CheckinDay_in_range c day :
  0 <= day < 64 -> CheckinDay c day = Done (Z.lor c (shl64 1 day)).
Proof.
  intros Hd. unfold CheckinDay.
  destruct (Z.ltb_spec day 0); [lia |]. destruct (Z.geb_spec day 64); [lia |].
  cbn [orb]. now rewrite shl_count by lia.
Qed.

Lemma IsCheckedToday_bit c : IsCheckedToday c = bit c 0.
Proof.
  unfold IsCheckedToday, bit.
  change 1 with (Z.ones 1) at 1. rewrite Z.land_ones by lia.
  rewrite Z.bit0_eqb. change (2 ^ 1) with 2. reflexivity.
Qed.

(** C9: [Checkin] sets bit 0 and leaves every other bit as it was, a second
    [Checkin] changes nothing, and [IsCheckedToday] holds afterwards. *)
Theorem Checkin_idempotent_today (r : CheckinRecord) :
  Checkin (Checkin r) = Checkin r /\
  IsCheckedToday (Checkin r) = true /\
  (forall k, bit (Checkin r) k = (k =? 0) || bit r k).
Proof.
  assert (Hbits : forall k, bit (Checkin r) k = (k =? 0) || bit r k).
  { intros k. unfold Checkin, bit. destruct (Z_lt_dec k 0) as [Hk | Hk].
    - rewrite !Z.testbit_neg_r by lia. destruct (Z.eqb_spec k 0); [lia | reflexivity].
    - rewrite Z.lor_spec. change 1 with (2 ^ 0) at 1.
      rewrite Z.pow2_bits_eqb, (Z.eqb_sym 0 k) by lia. apply orb_comm. }
  split; [| split].
  - unfold Checkin. rewrite <- Z.lor_assoc. reflexivity.
  - rewrite IsCheckedToday_bit, Hbits. reflexivity.
  - exact Hbits.
Qed.

(** C7: for a day outside [0, 64), [CheckinDay] ends normally with the
    record unchanged and [IsCheckedDay] ends normally with false; neither
    panics. *)
Theorem out_of_range_day_noop (r : CheckinRecord) (day : Z) :
  day < 0 \/ 64 <= day ->
  CheckinDay r day = Done r /\ IsCheckedDay r day = Done false.
Proof.
  intros Hd. unfold CheckinDay, IsCheckedDay.
  destruct (Z.ltb_spec day 0); [split; reflexivity |].
  destruct (Z.geb_spec day 64); [split; reflexivity | lia].
Qed.

Lemma out_of_range_day_noop_witness :
  (64 < 0 \/ 64 <= 64) /\
  CheckinDay 5 64 = Done 5 /\ IsCheckedDay 5 64 = Done false.
Proof.
  split; [right; lia |]. apply (out_of_range_day_noop 5 64). right. lia.
Defined.

Lemma CheckinDay_bits r d k :
  0 <= d < 64 -> 0 <= k < 64 ->
  bit (Z.lor r (shl64 1 d)) k = (k =? d) || bit r k.
Proof.
  intros Hd Hk. unfold bit. rewrite Z.lor_spec, testbit_mask by lia. apply orb_comm.
Qed.

(** C10: for a day [d] in [0, 64), [CheckinDay] ends normally with a record
    in which day [d] is checked and on which [IsCheckedDay] answers for
    every other day of [0, 64) as it did on the record given. *)
Theorem CheckinDay_frame (r : CheckinRecord) (d : Z) :
  is_int64 r -> 0 <= d < 64 ->
  exists r',
    CheckinDay r d = Done r' /\ is_int64 r' /\
    IsCheckedDay r' d = Done true /\
    (forall d', 0 <= d' < 64 -> d' <> d -> IsCheckedDay r' d' = IsCheckedDay r d').
Proof.
  intros Hr Hd. exists (Z.lor r (shl64 1 d)).
  assert (Hr' : is_int64 (Z.lor r (shl64 1 d))) by (apply lor_int64; [assumption | apply shl64_range]).
  split; [now apply CheckinDay_in_range |]. split; [exact Hr' |]. split.
  - rewrite IsCheckedDay_bit, CheckinDay_bits, Z.eqb_refl by assumption. reflexivity.
  - intros d' Hd' Hne. rewrite !IsCheckedDay_bit, CheckinDay_bits by assumption.
    destruct (Z.eqb_spec d' d); [contradiction | reflexivity].
Qed.

Lemma CheckinDay_frame_witness :
  is_int64 5 /\ 0 <= 63 < 64 /\
  exists r',
    CheckinDay 5 63 = Done r' /\ is_int64 r' /\
    IsCheckedDay r' 63 = Done true /\
    (forall d', 0 <= d' < 64 -> d' <> 63 -> IsCheckedDay r' d' = IsCheckedDay 5 d').
Proof.
  assert (H5 : is_int64 5) by (apply is_int64b_spec; reflexivity).
  assert (Hd : 0 <= 63 < 64) by lia.
  split; [exact H5 |]. split; [exact Hd |]. exact (CheckinDay_frame 5 63 H5 Hd).
Defined.

(** ** The daily shift *)

Lemma ShiftDay_bits r k :
  0 <= k < 64 -> bit (ShiftDay r) k = if k =? 0 then false else bit r (k - 1).
Proof.
  intros Hk. unfold bit, ShiftDay, shl64. rewrite testbit_wrap64 by lia.
  destruct (Z.eqb_spec k 0) as [-> | Hne].
  - apply Z.shiftl_spec_low. lia.
  - apply Z.shiftl_spec. lia.
Qed.

(** C3: [ShiftDay] is the left shift by one of the 64-bit pattern: bit 0 of
    the result is clear, bit [k] of the result is bit [k - 1] of the record
    for [1 <= k < 64], and the result does not depend on bit 63 of the
    record; the record [0b1] becomes [0b10], in which day 1 is checked and
    today is not. *)
Theorem ShiftDay_logical_shift (r : CheckinRecord) :
  is_int64 r ->
  is_int64 (ShiftDay r) /\
  bit (ShiftDay r) 0 = false /\
  (forall k, 1 <= k < 64 -> bit (ShiftDay r) k = bit r (k - 1)) /\
  (forall r', is_int64 r' ->
     (forall k, 0 <= k < 63 -> bit r' k = bit r k) -> ShiftDay r' = ShiftDay r) /\
  ShiftDay 1 = 2 /\
  IsCheckedDay (ShiftDay 1) 1 = Done true /\
  IsCheckedToday (ShiftDay 1) = false.
Proof.
  intros Hr. split; [apply shl64_range |]. split; [now rewrite ShiftDay_bits by lia |].
  split; [| split; [| repeat split; reflexivity]].
  - intros k Hk. rewrite ShiftDay_bits by lia.
    destruct (Z.eqb_spec k 0); [lia | reflexivity].
  - intros r' _ Hlow. apply int64_bits_inj; try apply shl64_range.
    intros k Hk. fold (bit (ShiftDay r') k) (bit (ShiftDay r) k).
    rewrite !ShiftDay_bits by lia.
    destruct (Z.eqb_spec k 0); [reflexivity | apply Hlow; lia].
Qed.

Lemma ShiftDay_logical_shift_witness :
  is_int64 (-3) /\
  is_int64 (ShiftDay (-3)) /\
  bit (ShiftDay (-3)) 0 = false /\
  (forall k, 1 <= k < 64 -> bit (ShiftDay (-3)) k = bit (-3) (k - 1)) /\
  (forall r', is_int64 r' ->
     (forall k, 0 <= k < 63 -> bit r' k = bit (-3) k) -> ShiftDay r' = ShiftDay (-3)) /\
  ShiftDay 1 = 2 /\
  IsCheckedDay (ShiftDay 1) 1 = Done true /\
  IsCheckedToday (ShiftDay 1) = false.
Proof.
  assert (H : is_int64 (-3)) by (apply is_int64b_spec; reflexivity).
  split; [exact H |]. exact (ShiftDay_logical_shift (-3) H).
Defined.

Example ShiftDay_drops_day_63 : ShiftDay min_int64 = 0 /\ ShiftDay (-1) = -2.
Proof. split; reflexivity. Qed.

(** ** Statistics *)

(** The test of a day's bit as the loops of the source write it. *)
Lemma mask_test {B : Type} c i (x y : outcome B) :
  is_int64 c -> 0 <= i < 64 ->
  (let* m := shl 1 i in if negb (Z.land c m =? 0) then x else y) =
  if bit c i then x else y.
Proof.
  intros Hc Hi. rewrite shl_count by lia. cbn [bind]. now rewrite bit_test.
Qed.

Lemma run_empty c s : run c s 0.
Proof. intros j Hj. lia. Qed.

Lemma run_extend c s l : 0 <= l -> run c s l -> bit c (s + l) = true -> run c s (l + 1).
Proof.
  intros Hl Hrun Hb j Hj. destruct (Z.eq_dec j (s + l)) as [-> | Hne]; [exact Hb |].
  apply Hrun. lia.
Qed.

(** C4: [ContinuousDays] ends normally with the number [n] of days checked
    in a row from today: [0 <= n <= 64], the bits [0 .. n-1] are set, and
    either [n = 64] or bit [n] is clear; [0b1011], [0b1111111] and [0] give
    2, 7 and 0. *)
Theorem ContinuousDays_streak (c : CheckinRecord) :
  is_int64 c ->
  (exists n,
     ContinuousDays c = Done n /\ 0 <= n <= 64 /\ run c 0 n /\
     (n = 64 \/ bit c n = false)) /\
  ContinuousDays 11 = Done 2 /\
  ContinuousDays 127 = Done 7 /\
  ContinuousDays 0 = Done 0.
Proof.
  intros Hc. split; [| repeat split; reflexivity].
  unfold ContinuousDays.
  destruct (for_range_rule
              (fun i count =>
                 let* m := shl 1 i in
                 if negb (Z.land c m =? 0) then Done (Next (count + 1))
                 else Done (Break count))
              (fun k count => count = k /\ run c 0 k)
              (fun count => 0 <= count < 64 /\ run c 0 count /\ bit c count = false)
              0 64 0) as (n & Hrun & Hpost).
  - lia.
  - split; [reflexivity | apply run_empty].
  - intros k count Hk (-> & Hset). rewrite mask_test by assumption.
    destruct (bit c k) eqn:Hb.
    + left. eexists. split; [reflexivity |]. split; [reflexivity |].
      apply run_extend; [lia | exact Hset | exact Hb].
    + right. eexists. split; [reflexivity |]. split; [lia |]. split; assumption.
  - exists n. split; [exact Hrun |].
    destruct Hpost as [(-> & Hset) | (Hn & Hset & Hclear)].
    + split; [lia |]. split; [exact Hset | now left].
    + split; [lia |]. split; [exact Hset | now right].
Qed.

Lemma ContinuousDays_streak_witness :
  is_int64 (-1) /\
  (exists n,
     ContinuousDays (-1) = Done n /\ 0 <= n <= 64 /\ run (-1) 0 n /\
     (n = 64 \/ bit (-1) n = false)) /\
  ContinuousDays 11 = Done 2 /\
  ContinuousDays 127 = Done 7 /\
  ContinuousDays 0 = Done 0.
Proof.
  assert (H : is_int64 (-1)) by (apply is_int64b_spec; reflexivity).
  split; [exact H |]. exact (ContinuousDays_streak (-1) H).
Defined.

(** The streak is determined by the two conditions of the theorem. *)
Lemma streak_unique c n n' :
  0 <= n <= 64 -> run c 0 n -> (n = 64 \/ bit c n = false) ->
  0 <= n' <= 64 -> run c 0 n' -> (n' = 64 \/ bit c n' = false) ->
  n = n'.
Proof.
  intros Hn Hrun Hend Hn' Hrun' Hend'.
  destruct (Z.lt_trichotomy n n') as [Hlt | [Heq | Hgt]]; [| exact Heq |].
  - destruct Hend as [-> | Hclear]; [lia |].
    rewrite (Hrun' n) in Hclear by lia. discriminate.
  - destruct Hend' as [-> | Hclear]; [lia |].
    rewrite (Hrun n') in Hclear by lia. discriminate.
Qed.

Lemma seqZ_snoc k : 0 <= k -> seqZ 0 (k + 1) = seqZ 0 k ++ [k].
Proof.
  intros Hk. rewrite seqZ_app by lia. reflexivity.
Qed.

Lemma popcount_0 c : popcount c 0 = 0.
Proof. reflexivity. Qed.

Lemma popcount_succ c k :
  0 <= k -> popcount c (k + 1) = popcount c k + (if bit c k then 1 else 0).
Proof.
  intros Hk. unfold popcount. rewrite seqZ_snoc, List.filter_app by lia.
  rewrite length_app. cbn [List.filter]. destruct (bit c k); cbn [length]; lia.
Qed.

Lemma popcount_bound c n : 0 <= n -> 0 <= popcount c n <= n.
Proof.
  intros Hn. pattern n. apply natlike_ind; [rewrite popcount_0; lia | | exact Hn].
  intros k Hk IH. unfold Z.succ. rewrite popcount_succ by lia.
  destruct (bit c k); lia.
Qed.

Lemma clampedDays_range days : 1 <= clampedDays days <= 64.
Proof.
  unfold clampedDays.
  destruct (Z.leb_spec days 0); cbn [orb]; [lia |].
  destruct (Z.gtb_spec days 64); lia.
Qed.

Lemma clampedDays_cases days :
  (days <= 0 \/ 64 < days -> clampedDays days = 64) /\
  (0 < days <= 64 -> clampedDays days = days).
Proof.
  unfold clampedDays.
  destruct (Z.leb_spec days 0); cbn [orb]; [split; [reflexivity | lia] |].
  destruct (Z.gtb_spec days 64); split; lia || reflexivity.
Qed.

Lemma TotalDaysInPeriod_popcount c days :
  is_int64 c -> TotalDaysInPeriod c days = Done (popcount c (clampedDays days)).
Proof.
  intros Hc. unfold TotalDaysInPeriod. fold (clampedDays days).
  pose proof (clampedDays_range days) as Hw.
  destruct (for_range_rule
              (fun i count =>
                 let* m := shl 1 i in
                 if negb (Z.land c m =? 0) then Done (Next (count + 1))
                 else Done (Next count))
              (fun k count => count = popcount c k)
              (fun _ => False)
              0 (clampedDays days) 0) as (n & Hrun & Hpost).
  - lia.
  - now rewrite popcount_0.
  - intros k count Hk ->. left. rewrite mask_test by (assumption || lia).
    rewrite popcount_succ by lia.
    destruct (bit c k); eexists; (split; [reflexivity | lia]).
  - destruct Hpost as [-> | []]. exact Hrun.
Qed.

(** C6: [TotalDaysInPeriod] ends normally with the number of set bits
    among the indices [0, w), where the window [w] is [days] when
    [0 < days <= 64] and 64 otherwise; the result lies in [0, w];
    [0b1010101] gives 4 for 7 days and 2 for 3 days. *)
Theorem TotalDaysInPeriod_window (c : CheckinRecord) (days : Z) :
  is_int64 c ->
  TotalDaysInPeriod c days = Done (popcount c (clampedDays days)) /\
  0 <= popcount c (clampedDays days) <= clampedDays days /\
  (days <= 0 \/ 64 < days -> clampedDays days = 64) /\
  (0 < days <= 64 -> clampedDays days = days) /\
  TotalDaysInPeriod 85 7 = Done 4 /\
  TotalDaysInPeriod 85 3 = Done 2.
Proof.
  intros Hc. pose proof (clampedDays_range days) as Hw.
  split; [now apply TotalDaysInPeriod_popcount |].
  split; [apply popcount_bound; lia |].
  split; [apply clampedDays_cases |]. split; [apply clampedDays_cases |].
  split; reflexivity.
Qed.

Lemma TotalDaysInPeriod_window_witness :
  is_int64 (-1) /\
  TotalDaysInPeriod (-1) 100 = Done (popcount (-1) (clampedDays 100)) /\
  0 <= popcount (-1) (clampedDays 100) <= clampedDays 100 /\
  (100 <= 0 \/ 64 < 100 -> clampedDays 100 = 64) /\
  (0 < 100 <= 64 -> clampedDays 100 = 100) /\
  TotalDaysInPeriod 85 7 = Done 4 /\
  TotalDaysInPeriod 85 3 = Done 2.
Proof.
  assert (H : is_int64 (-1)) by (apply is_int64b_spec; reflexivity).
  split; [exact H |]. exact (TotalDaysInPeriod_window (-1) 100 H).
Defined.

Lemma scan_step_set c k maxCount currentCount :
  0 <= k -> bit c k = true ->
  scan_inv c k (maxCount, currentCount) ->
  scan_inv c (k + 1)
    (if currentCount + 1 >? maxCount then currentCount + 1 else maxCount,
     currentCount + 1).
Proof.
  intros Hk Hb (Hcur & Hmax & Hsuffix & Hstop & (s0 & Hs0 & Hfit & Hrun0) & Hlongest).
  assert (Hsuffix' : run c (k + 1 - (currentCount + 1)) (currentCount + 1)).
  { replace (k + 1 - (currentCount + 1)) with (k - currentCount) by lia.
    apply run_extend; [lia | exact Hsuffix |].
    now replace (k - currentCount + currentCount) with k by lia. }
  unfold scan_inv, longest_run.
  destruct (Z.gtb_spec (currentCount + 1) maxCount) as [Hgt | Hle].
  - split; [lia |]. split; [lia |]. split; [exact Hsuffix' |]. split.
    { destruct Hstop as [-> | Hclear]; [left; reflexivity | right].
      now replace (k + 1 - (currentCount + 1) - 1) with (k - currentCount - 1) by lia. }
    split.
    + exists (k - currentCount). split; [lia |]. split; [lia |].
      now replace (k + 1 - (currentCount + 1)) with (k - currentCount) in Hsuffix' by lia.
    + intros s l Hs Hl Hsl Hrun.
      destruct (Z_le_gt_dec (s + l) k) as [Hin | Hout];
        [specialize (Hlongest s l Hs Hl Hin Hrun); lia |].
      destruct (Z_le_gt_dec l (currentCount + 1)) as [| Hlong]; [assumption |].
      destruct Hstop as [-> | Hclear]; [lia |].
      rewrite (Hrun (k - currentCount - 1)) in Hclear by lia. discriminate.
  - split; [lia |]. split; [lia |]. split; [exact Hsuffix' |]. split.
    { destruct Hstop as [-> | Hclear]; [left; reflexivity | right].
      now replace (k + 1 - (currentCount + 1) - 1) with (k - currentCount - 1) by lia. }
    split.
    + exists s0. split; [lia |]. split; [lia | exact Hrun0].
    + intros s l Hs Hl Hsl Hrun.
      destruct (Z_le_gt_dec (s + l) k) as [Hin | Hout];
        [exact (Hlongest s l Hs Hl Hin Hrun) |].
      destruct (Z_le_gt_dec l (currentCount + 1)) as [| Hlong]; [lia |].
      destruct Hstop as [-> | Hclear]; [lia |].
      rewrite (Hrun (k - currentCount - 1)) in Hclear by lia. discriminate.
Qed.

Lemma scan_step_clear c k maxCount currentCount :
  0 <= k -> bit c k = false ->
  scan_inv c k (maxCount, currentCount) ->
  scan_inv c (k + 1) (maxCount, 0).
Proof.
  intros Hk Hb (Hcur & Hmax & Hsuffix & Hstop & (s0 & Hs0 & Hfit & Hrun0) & Hlongest).
  unfold scan_inv, longest_run.
  split; [lia |]. split; [lia |]. split; [apply run_empty |]. split.
  { right. now replace (k + 1 - 0 - 1) with k by lia. }
  split.
  - exists s0. split; [lia |]. split; [lia | exact Hrun0].
  - intros s l Hs Hl Hsl Hrun.
    destruct (Z_le_gt_dec (s + l) k) as [Hin | Hout];
      [exact (Hlongest s l Hs Hl Hin Hrun) |].
    destruct (Z.eq_dec l 0) as [-> | Hpos]; [lia |].
    rewrite (Hrun k) in Hb by lia. discriminate.
Qed.

Lemma longest_run_zero k : 0 <= k -> longest_run 0 k 0.
Proof.
  intros Hk. split.
  - exists 0. split; [lia |]. split; [lia | apply run_empty].
  - intros s l Hs Hl Hsl Hrun. destruct (Z_le_gt_dec l 0) as [| Hpos]; [assumption |].
    specialize (Hrun s ltac:(lia)). unfold bit in Hrun. rewrite Z.bits_0 in Hrun.
    discriminate.
Qed.

Lemma MaxContinuousDays_scan c :
  is_int64 c ->
  exists m, MaxContinuousDays c = Done m /\ 0 <= m <= 64 /\ longest_run c 64 m.
Proof.
  intros Hc. unfold MaxContinuousDays. destruct (Z.eqb_spec c 0) as [-> | Hne].
  { exists 0. split; [reflexivity |]. split; [lia | now apply longest_run_zero]. }
  match goal with
  | |- context [for_range 0 64 ?body ?s0] =>
      destruct (for_range_rule body (scan_inv c) (fun _ => False) 0 64 s0)
        as ([m cur] & Hrun & Hpost)
  end.
  - lia.
  - unfold scan_inv. split; [lia |]. split; [lia |]. split; [apply run_empty |].
    split; [now left |]. split.
    + exists 0. split; [lia |]. split; [lia | apply run_empty].
    + intros s l Hs Hl Hsl _. lia.
  - intros k [maxCount currentCount] Hk Hinv. left.
    rewrite mask_test by assumption. destruct (bit c k) eqn:Hb.
    + eexists. split; [reflexivity |]. apply scan_step_set; [lia | assumption ..].
    + eexists. split; [reflexivity |]. apply scan_step_clear with currentCount;
        [lia | assumption ..].
  - destruct Hpost as [Hinv | []]. exists m. rewrite Hrun. split; [reflexivity |].
    destruct Hinv as (Hcur & Hmax & _ & _ & Hlong). split; [lia | exact Hlong].
Qed.

(** C5: [MaxContinuousDays] ends normally with the length [m] of the
    longest run of set bits among the 64 indices: some run of length [m]
    lies in [0, 64) and none there is longer; [m] is 0 when no bit is set;
    [0b1110011], [0b11110110] and [0] give 3, 4 and 0. *)
Theorem MaxContinuousDays_longest_run (c : CheckinRecord) :
  is_int64 c ->
  (exists m,
     MaxContinuousDays c = Done m /\ 0 <= m <= 64 /\
     (exists s, 0 <= s /\ s + m <= 64 /\ run c s m) /\
     (forall s l, 0 <= s -> 0 <= l -> s + l <= 64 -> run c s l -> l <= m) /\
     ((forall j, 0 <= j < 64 -> bit c j = false) -> m = 0)) /\
  MaxContinuousDays 115 = Done 3 /\
  MaxContinuousDays 246 = Done 4 /\
  MaxContinuousDays 0 = Done 0.
Proof.
  intros Hc. split; [| repeat split; reflexivity].
  destruct (MaxContinuousDays_scan c Hc) as (m & Hrun & Hm & (s & Hs & Hfit & Hset) & Hlong).
  exists m. split; [exact Hrun |]. split; [exact Hm |].
  split; [exists s; auto |]. split; [exact Hlong |].
  intros Hnone. destruct (Z.eq_dec m 0) as [| Hpos]; [assumption |].
  specialize (Hnone s ltac:(lia)). rewrite (Hset s) in Hnone by lia. discriminate.
Qed.

Lemma MaxContinuousDays_longest_run_witness :
  is_int64 (-1) /\
  (exists m,
     MaxContinuousDays (-1) = Done m /\ 0 <= m <= 64 /\
     (exists s, 0 <= s /\ s + m <= 64 /\ run (-1) s m) /\
     (forall s l, 0 <= s -> 0 <= l -> s + l <= 64 -> run (-1) s l -> l <= m) /\
     ((forall j, 0 <= j < 64 -> bit (-1) j = false) -> m = 0)) /\
  MaxContinuousDays 115 = Done 3 /\
  MaxContinuousDays 246 = Done 4 /\
  MaxContinuousDays 0 = Done 0.
Proof.
  assert (H : is_int64 (-1)) by (apply is_int64b_spec; reflexivity).
  split; [exact H |]. exact (MaxContinuousDays_longest_run (-1) H).
Defined.

(** ** float64: conversion and division of the numbers of days *)

Section Float64Facts.

Lemma digits2_pos_size p : digits2_pos p = Pos.size p.
Proof. induction p as [p IH | p IH |]; cbn; now rewrite ?IH. Qed.

Lemma digits_log2 p : Z.pos (digits2_pos p) = Z.log2 (Z.pos p) + 1.
Proof.
  rewrite digits2_pos_size. destruct p as [p | p |]; cbn [Pos.size Z.log2];
    rewrite ?Pos2Z.inj_succ; lia.
Qed.

Lemma digits_bounds p k :
  Z.pos (digits2_pos p) = k <-> 2 ^ (k - 1) <= Z.pos p < 2 ^ k.
Proof.
  rewrite digits_log2. pose proof (Z.log2_spec (Z.pos p) ltac:(lia)) as Hs.
  pose proof (Z.log2_nonneg (Z.pos p)) as Hn. split.
  - intros <-. replace (Z.log2 (Z.pos p) + 1 - 1) with (Z.log2 (Z.pos p)) by lia.
    exact Hs.
  - intros Hk. assert (Hk1 : 0 <= k - 1).
    { destruct (Z_lt_dec (k - 1) 0) as [Hneg |]; [| lia].
      assert (2 ^ k <= 1).
      { destruct (Z.eq_dec k 0) as [-> |]; [reflexivity |].
        rewrite Z.pow_neg_r by lia. lia. }
      lia. }
    rewrite (Z.log2_unique (Z.pos p) (k - 1)); [lia | lia |].
    replace (Z.succ (k - 1)) with k by lia. exact Hk.
Qed.

Lemma shr_1_m mrs : 0 <= shr_m mrs -> shr_m (shr_1 mrs) = shr_m mrs / 2.
Proof.
  destruct mrs as [m r s]. cbn [shr_m]. intros Hm.
  destruct m as [| [p | p |] |]; cbn [shr_1 shr_m]; try lia; try reflexivity.
  - apply Z.div_unique with (r := 1); lia.
  - apply Z.div_unique with (r := 0); lia.
Qed.

Lemma iter_shr_m k : forall mrs,
  0 <= shr_m mrs -> shr_m (SpecFloat.iter_pos shr_1 k mrs) = shr_m mrs / 2 ^ Z.pos k.
Proof.
  assert (Hstep : forall j mrs,
            (forall mrs, 0 <= shr_m mrs ->
               shr_m (SpecFloat.iter_pos shr_1 j mrs) = shr_m mrs / 2 ^ Z.pos j) ->
            0 <= shr_m mrs ->
            shr_m (SpecFloat.iter_pos shr_1 j (SpecFloat.iter_pos shr_1 j mrs)) =
            shr_m mrs / 2 ^ Z.pos j~0).
  { intros j mrs IH Hm.
    assert (Hp : 0 < 2 ^ Z.pos j) by (apply Z.pow_pos_nonneg; lia).
    rewrite IH by (rewrite IH by assumption; apply Z.div_pos; lia).
    rewrite IH by assumption. rewrite Z.div_div by lia.
    rewrite <- Z.pow_add_r by lia. f_equal. f_equal. lia. }
  induction k as [k IH | k IH |]; intros mrs Hm; cbn [SpecFloat.iter_pos].
  - rewrite Hstep by (assumption || (rewrite shr_1_m by assumption; apply Z.div_pos; lia)).
    rewrite shr_1_m by assumption. rewrite Z.div_div by (try lia; apply Z.pow_pos_nonneg; lia).
    reflexivity.
  - now apply Hstep.
  - rewrite shr_1_m by assumption. reflexivity.
Qed.

Lemma fexp_normal x : -1074 <= x - 53 -> fexp 53 1024 x = x - 53.
Proof. unfold fexp, emin. lia. Qed.

Lemma shr_shift mrs e n :
  0 <= n -> 0 <= shr_m mrs ->
  exists mrs',
    shr mrs e n = (mrs', e + n) /\ shr_m mrs' = shr_m mrs / 2 ^ n /\
    (n = 0 -> mrs' = mrs).
Proof.
  intros Hn Hm. destruct n as [| k | k]; [| | lia].
  - exists mrs. cbn [shr]. rewrite Z.add_0_r, Z.div_1_r. auto.
  - exists (SpecFloat.iter_pos shr_1 k mrs). cbn [shr].
    split; [reflexivity |]. split; [now apply iter_shr_m | lia].
Qed.

Lemma shr_fexp_normal p e l n :
  0 <= n -> Z.pos (digits2_pos p) = 53 + n -> -1074 <= e + n ->
  exists mrs',
    shr_fexp 53 1024 (Z.pos p) e l = (mrs', e + n) /\
    shr_m mrs' = Z.pos p / 2 ^ n /\
    (n = 0 -> mrs' = shr_record_of_loc (Z.pos p) l).
Proof.
  intros Hn Hd He. unfold shr_fexp. cbn [Zdigits2].
  rewrite Hd, fexp_normal by lia. replace (53 + n + e - 53 - e) with n by lia.
  assert (Hm : shr_m (shr_record_of_loc (Z.pos p) l) = Z.pos p)
    by (destruct l as [| []]; reflexivity).
  destruct (shr_shift (shr_record_of_loc (Z.pos p) l) e n Hn ltac:(lia))
    as (mrs' & Hs & Hq & H0).
  exists mrs'. rewrite Hm in Hq. auto.
Qed.

Lemma round_nearest_even_range m l :
  m <= round_nearest_even m l <= m + 1.
Proof. destruct l as [| []]; cbn; try destruct (Z.even m); lia. Qed.

Lemma quotient_bounds p n :
  0 <= n -> Z.pos (digits2_pos p) = 53 + n ->
  2 ^ 52 <= Z.pos p / 2 ^ n < 2 ^ 53.
Proof.
  intros Hn Hd. apply digits_bounds in Hd.
  replace (53 + n - 1) with (52 + n) in Hd by lia.
  rewrite !Z.pow_add_r in Hd by lia.
  assert (Hp : 0 < 2 ^ n) by (apply Z.pow_pos_nonneg; lia). split.
  - apply Z.div_le_lower_bound; lia.
  - apply Z.div_lt_upper_bound; lia.
Qed.

(** Rounding a mantissa of [53 + n] bits: [n] bits are shifted out, the
    rest is rounded to the nearest, and a mantissa that reaches [2^53] is
    shifted once more. *)
Lemma binary_round_aux_normal p e l n :
  0 <= n -> Z.pos (digits2_pos p) = 53 + n ->
  -1074 <= e + n -> e + n + 1 <= 971 ->
  exists m e_r,
    binary_round_aux 53 1024 false (Z.pos p) e l = S754_finite false m e_r /\
    2 ^ 52 <= Z.pos m < 2 ^ 53 /\
    ((e_r = e + n /\ Z.pos p / 2 ^ n <= Z.pos m <= Z.pos p / 2 ^ n + 1) \/
     (Z.pos m = 2 ^ 52 /\ e_r = e + n + 1 /\ Z.pos p / 2 ^ n = 2 ^ 53 - 1)).
Proof.
  intros Hn Hd He1 He2. unfold binary_round_aux.
  destruct (shr_fexp_normal p e l n Hn Hd He1) as (mrs1 & -> & Hq & _).
  pose proof (quotient_bounds p n Hn Hd) as Hb.
  pose proof (round_nearest_even_range (shr_m mrs1) (loc_of_shr_record mrs1)) as Hr.
  rewrite Hq in Hr |- *.
  destruct (round_nearest_even (Z.pos p / 2 ^ n) (loc_of_shr_record mrs1))
    as [| m1 | m1] eqn:Hm1; try lia.
  change (2 ^ 52) with 4503599627370496 in *.
  change (2 ^ 53) with 9007199254740992 in *.
  destruct (Z_lt_dec (Z.pos m1) 9007199254740992) as [Hlt | Hge].
  - assert (Hd1 : Z.pos (digits2_pos m1) = 53 + 0)
      by (apply digits_bounds; cbn; lia).
    destruct (shr_fexp_normal m1 (e + n) loc_Exact 0 ltac:(lia) Hd1 ltac:(lia))
      as (mrs2 & -> & _ & Hsame).
    rewrite (Hsame eq_refl). cbn [shr_record_of_loc shr_m].
    destruct (Z.leb_spec (e + n + 0) (1024 - 53)); [| lia].
    exists m1, (e + n + 0). split; [reflexivity |]. split; [lia |]. left. lia.
  - assert (Hm : Z.pos m1 = 9007199254740992) by lia. injection Hm as ->.
    destruct (shr_fexp_normal 9007199254740992 (e + n) loc_Exact 1 ltac:(lia)
                eq_refl ltac:(lia)) as (mrs2 & -> & Hq2 & _).
    change (9007199254740992 / 2 ^ 1) with 4503599627370496 in Hq2. rewrite Hq2.
    destruct (Z.leb_spec (e + n + 1) (1024 - 53)); [| lia].
    exists 4503599627370496%positive, (e + n + 1). split; [reflexivity |].
    split; [lia |]. right. lia.
Qed.

Lemma binary_round_aux_exact p e :
  Z.pos (digits2_pos p) = 53 -> -1074 <= e <= 971 ->
  binary_round_aux 53 1024 false (Z.pos p) e loc_Exact = S754_finite false p e.
Proof.
  intros Hd He. unfold binary_round_aux.
  destruct (shr_fexp_normal p e loc_Exact 0 ltac:(lia) ltac:(lia) ltac:(lia))
    as (mrs1 & -> & _ & Hsame).
  rewrite (Hsame eq_refl). cbn [shr_record_of_loc shr_m loc_of_shr_record round_nearest_even].
  destruct (shr_fexp_normal p (e + 0) loc_Exact 0 ltac:(lia) ltac:(lia) ltac:(lia))
    as (mrs2 & -> & _ & Hsame2).
  rewrite (Hsame2 eq_refl). cbn [shr_record_of_loc shr_m].
  destruct (Z.leb_spec (e + 0 + 0) (1024 - 53)); [| lia].
  f_equal. lia.
Qed.

Lemma iter_xO p k : Z.pos (Pos.iter xO p k) = Z.pos p * 2 ^ Z.pos k.
Proof.
  induction k as [| k IH] using Pos.peano_ind.
  - cbn [Pos.iter]. lia.
  - rewrite Pos.iter_succ, Pos2Z.inj_xO, IH, Pos2Z.inj_succ, Z.pow_succ_r by lia. lia.
Qed.

(** [float64(d)] for an int that is positive: a normal number; exact
    below [2^53]. *)
Lemma of_int_normal d :
  1 <= d < 2 ^ 63 ->
  exists m e,
    Float64.of_int d = S754_finite false m e /\
    2 ^ 52 <= Z.pos m < 2 ^ 53 /\ -52 <= e <= 11 /\
    (d < 2 ^ 53 -> e <= 0 /\ Z.pos m = d * 2 ^ (- e)) /\
    (2 ^ 53 <= d -> 1 <= e).
Proof.
  intros Hd. destruct d as [| p | p]; try lia.
  unfold Float64.of_int, Float64.prec, Float64.emax, binary_normalize, binary_round.
  destruct (Z.pos (digits2_pos p)) as [| D | D] eqn:HD; try discriminate.
  pose proof HD as Hb. apply digits_bounds in Hb.
  assert (HD63 : Z.pos D <= 63).
  { destruct (Z_le_gt_dec (Z.pos D) 63) as [| Hgt]; [assumption |].
    assert (2 ^ 63 <= 2 ^ (Z.pos D - 1)) by (apply Z.pow_le_mono_r; lia). lia. }
  rewrite fexp_normal by lia. unfold shl_align.
  destruct (Z.pos D + 0 - 53 - 0) as [| k | k] eqn:Hk.
  - assert (HD53 : Z.pos D = 53) by lia. rewrite HD53 in *.
    rewrite binary_round_aux_exact by (assumption || lia).
    exists p, 0. split; [reflexivity |]. split; [exact Hb |]. split; [lia |].
    split; [intros _; cbn; lia | intros Hbig; lia].
  - destruct (binary_round_aux_normal p 0 loc_Exact (Z.pos D - 53))
      as (m & e_r & -> & Hm & Hcases); try lia.
    exists m, e_r. split; [reflexivity |]. split; [exact Hm |].
    split; [lia |]. split; [| lia].
    intros Hsmall. assert (2 ^ 53 <= 2 ^ (Z.pos D - 1))
      by (apply Z.pow_le_mono_r; lia). lia.
  - assert (Hshift : Z.pos k = 53 - Z.pos D) by lia.
    assert (Hp : 0 < 2 ^ Z.pos k) by (apply Z.pow_pos_nonneg; lia).
    assert (Hm : 2 ^ 52 <= Z.pos (Pos.iter xO p k) < 2 ^ 53).
    { assert (E52 : 2 ^ 52 = 2 ^ (Z.pos D - 1) * 2 ^ Z.pos k)
        by (rewrite <- Z.pow_add_r by lia; f_equal; lia).
      assert (E53 : 2 ^ 53 = 2 ^ Z.pos D * 2 ^ Z.pos k)
        by (rewrite <- Z.pow_add_r by lia; f_equal; lia).
      rewrite iter_xO, E52, E53. nia. }
    rewrite binary_round_aux_exact by (try (apply digits_bounds; exact Hm); lia).
    exists (Pos.iter xO p k), (Z.pos D + 0 - 53). split; [reflexivity |].
    split; [exact Hm |]. split; [lia |]. split.
    + intros _. split; [lia |]. rewrite iter_xO. f_equal. f_equal. lia.
    + intros Hbig. assert (2 ^ Z.pos D <= 2 ^ 53)
        by (apply Z.pow_le_mono_r; lia). lia.
Qed.

(** The quotient of two normal numbers of exponents near 0. *)
Lemma div_normal mx ex my ey :
  2 ^ 52 <= Z.pos mx < 2 ^ 53 -> 2 ^ 52 <= Z.pos my < 2 ^ 53 ->
  -60 <= ex <= 20 -> -60 <= ey <= 20 ->
  let n := if Z.pos mx <? Z.pos my then 0 else 1 in
  let q := Z.pos mx * 2 ^ 53 / Z.pos my / 2 ^ n in
  exists m e_r,
    Float64.div (S754_finite false mx ex) (S754_finite false my ey) =
    S754_finite false m e_r /\
    2 ^ 52 <= Z.pos m < 2 ^ 53 /\
    ((e_r = ex - ey - 53 + n /\ q <= Z.pos m <= q + 1) \/
     (Z.pos m = 2 ^ 52 /\ e_r = ex - ey - 53 + n + 1 /\ q = 2 ^ 53 - 1)).
Proof.
  intros Hmx Hmy Hex Hey n q.
  assert (Hdx : Z.pos (digits2_pos mx) = 53) by (now apply digits_bounds).
  assert (Hdy : Z.pos (digits2_pos my) = 53) by (now apply digits_bounds).
  unfold Float64.div, Float64.prec, Float64.emax, SFdiv, SFdiv_core_binary.
  cbn [Zdigits2 xorb]. rewrite Hdx, Hdy.
  assert (He' : Z.min (fexp 53 1024 (53 + ex - (53 + ey))) (ex - ey) = ex - ey - 53)
    by (rewrite fexp_normal by lia; lia).
  rewrite He'. replace (ex - ey - (ex - ey - 53)) with 53 by lia.
  rewrite Z.shiftl_mul_pow2 by lia.
  pose proof (Z.div_eucl_eq (Z.pos mx * 2 ^ 53) (Z.pos my) ltac:(lia)) as Heq.
  pose proof (Z.mod_pos_bound (Z.pos mx * 2 ^ 53) (Z.pos my) ltac:(lia)) as Hrem.
  unfold Z.modulo, q, Z.div in *.
  destruct (Z.div_eucl (Z.pos mx * 2 ^ 53) (Z.pos my)) as [q0 r0].
  change (2 ^ 52) with 4503599627370496 in *.
  change (2 ^ 53) with 9007199254740992 in *.
  assert (Hq0 : 4503599627370496 <= q0 < 2 * 9007199254740992) by nia.
  destruct q0 as [| pq | pq]; try lia.
  assert (Hdq : Z.pos (digits2_pos pq) = 53 + n).
  { apply digits_bounds. unfold n. destruct (Z.ltb_spec (Z.pos mx) (Z.pos my)).
    - change (2 ^ (53 + 0 - 1)) with 4503599627370496.
      change (2 ^ (53 + 0)) with 9007199254740992. nia.
    - change (2 ^ (53 + 1 - 1)) with 9007199254740992.
      change (2 ^ (53 + 1)) with (2 * 9007199254740992). nia. }
  assert (Hn : 0 <= n <= 1) by (unfold n; destruct (Z.pos mx <? Z.pos my); lia).
  destruct (binary_round_aux_normal pq (ex - ey - 53) (new_location (Z.pos my) r0) n)
    as (m & e_r & -> & Hm & Hcases); try lia.
  exists m, e_r. split; [reflexivity |]. split; [exact Hm |].
  fold (Z.div (Z.pos pq) (2 ^ n)) in *. exact Hcases.
Qed.

Lemma finite_le_one m e :
  e < -52 \/ (e = -52 /\ Z.pos m = 2 ^ 52) ->
  Float64.leb Float64.zero (S754_finite false m e) = true /\
  Float64.leb (S754_finite false m e) Float64.one = true.
Proof.
  intros He. split; [reflexivity |].
  unfold Float64.leb, Float64.one, SFleb, SFcompare.
  destruct (Z.compare_spec e (-52)) as [-> | Hlt | Hgt]; [| reflexivity | lia].
  destruct He as [He | [_ Hm]]; [lia |]. injection Hm as ->. reflexivity.
Qed.

Lemma finite_lt_one m e :
  e < -52 -> Float64.ltb (S754_finite false m e) Float64.one = true.
Proof.
  intros He. unfold Float64.ltb, Float64.one, SFltb, SFcompare.
  destruct (Z.compare_spec e (-52)); [lia | reflexivity | lia].
Qed.

(** A smaller int over a larger one is at most 1. *)
Lemma ratio_le_one t d :
  1 <= t -> t < d -> t < 2 ^ 53 -> d < 2 ^ 63 ->
  Float64.leb Float64.zero (Float64.div (Float64.of_int t) (Float64.of_int d)) = true /\
  Float64.leb (Float64.div (Float64.of_int t) (Float64.of_int d)) Float64.one = true.
Proof.
  intros Ht Htd Ht53 Hd.
  assert (H63 : 2 ^ 53 < 2 ^ 63) by reflexivity.
  destruct (of_int_normal t ltac:(lia)) as (mx & ex & -> & Hmx & Hex & Hxs & _).
  destruct (of_int_normal d ltac:(lia)) as (my & ey & -> & Hmy & Hey & Hys & Hyb).
  destruct (Hxs Ht53) as [Hex0 Hxv].
  assert (Horder : ex < ey \/ (ex = ey /\ Z.pos mx < Z.pos my)).
  { destruct (Z_lt_dec d (2 ^ 53)) as [Hsmall | Hbig]; [| left; lia].
    destruct (Hys Hsmall) as [Hey0 Hyv].
    destruct (Z.lt_trichotomy ex ey) as [Hlt | [Heq | Hgt]]; [now left | right | exfalso].
    - split; [exact Heq |]. rewrite Hxv, Hyv, Heq.
      assert (0 < 2 ^ (- ey)) by (apply Z.pow_pos_nonneg; lia). nia.
    - assert (E : 2 ^ (- ey) = 2 ^ (- ex) * 2 ^ (ex - ey))
        by (rewrite <- Z.pow_add_r by lia; f_equal; lia).
      assert (0 < 2 ^ (- ex)) by (apply Z.pow_pos_nonneg; lia).
      assert (2 ^ 1 <= 2 ^ (ex - ey)) by (apply Z.pow_le_mono_r; lia).
      change (2 ^ 1) with 2 in *. rewrite E in Hyv. nia. }
  destruct (div_normal mx ex my ey Hmx Hmy ltac:(lia) ltac:(lia))
    as (m & e_r & -> & Hm & Hcases).
  apply finite_le_one.
  destruct (Z.ltb_spec (Z.pos mx) (Z.pos my)); lia.
Qed.

(** 64 over a larger int is below 1. *)
Lemma ratio_64_lt_one d :
  64 < d < 2 ^ 63 ->
  Float64.ltb (Float64.div (Float64.of_int 64) (Float64.of_int d)) Float64.one = true.
Proof.
  intros Hd.
  destruct (of_int_normal d ltac:(lia)) as (my & ey & Hy & Hmy & Hey & Hys & Hyb).
  rewrite Hy. change (Float64.of_int 64) with (S754_finite false 4503599627370496 (-46)).
  assert (Horder : -46 < ey \/ (ey = -46 /\ 65 * 2 ^ 46 <= Z.pos my)).
  { destruct (Z_lt_dec d (2 ^ 53)) as [Hsmall | Hbig]; [| left; lia].
    destruct (Hys Hsmall) as [Hey0 Hyv].
    destruct (Z_lt_dec (-46) ey) as [| Hle]; [now left |].
    assert (E : 2 ^ (- ey) = 2 ^ 46 * 2 ^ (- ey - 46))
      by (rewrite <- Z.pow_add_r by lia; f_equal; lia).
    assert (Hp : 0 < 2 ^ (- ey - 46)) by (apply Z.pow_pos_nonneg; lia).
    destruct (Z.eq_dec ey (-46)) as [-> | Hne].
    - right. split; [reflexivity |]. rewrite Hyv. change (- -46) with 46. lia.
    - exfalso. assert (2 ^ 1 <= 2 ^ (- ey - 46)) by (apply Z.pow_le_mono_r; lia).
      change (2 ^ 1) with 2 in *. rewrite E in Hyv.
      change (2 ^ 46) with 70368744177664 in *.
      change (2 ^ 53) with 9007199254740992 in *. nia. }
  destruct (div_normal 4503599627370496 (-46) my ey ltac:(split; reflexivity) Hmy
              ltac:(lia) ltac:(lia)) as (m & e_r & -> & Hm & Hcases).
  apply finite_lt_one.
  change (2 ^ 52) with 4503599627370496 in *.
  change (2 ^ 53) with 9007199254740992 in *.
  change (2 ^ 46) with 70368744177664 in *.
  change (Z.pos 4503599627370496 * 9007199254740992)
    with 40564819207303340847894502572032 in Hcases.
  destruct (Z.ltb_spec 4503599627370496 (Z.pos my)) as [Hlt | Hge].
  - rewrite Z.div_1_r in Hcases.
    destruct Hcases as [[-> _] | (_ & -> & Hq)]; [lia |].
    destruct Horder as [| [-> Hbig]]; [lia |]. exfalso.
    assert (40564819207303340847894502572032 / Z.pos my < 9007199254740992 - 1);
      [| lia].
    apply Z.div_lt_upper_bound; lia.
  - assert (Hmy' : Z.pos my = 4503599627370496) by lia. rewrite Hmy' in Hcases.
    change (40564819207303340847894502572032 / 4503599627370496 / 2 ^ 1)
      with 4503599627370496 in Hcases.
    destruct Horder as [Hey1 | [_ Hbig]]; [| lia].
    destruct Hcases as [[-> _] | (_ & _ & Hq)]; lia.
Qed.

Lemma ratio_zero d :
  1 <= d < 2 ^ 63 ->
  Float64.div (Float64.of_int 0) (Float64.of_int d) = Float64.zero.
Proof.
  intros Hd. destruct (of_int_normal d Hd) as (m & e & -> & _). reflexivity.
Qed.

Lemma small_ratios_ok :
  forallb (fun d => forallb (small_ratio_ok d) (seqZ 0 (d + 1))) (seqZ 1 64) = true.
Proof. vm_compute. reflexivity. Qed.

Lemma small_ratio d t : 1 <= d <= 64 -> 0 <= t <= d -> small_ratio_ok d t = true.
Proof.
  intros Hd Ht. pose proof small_ratios_ok as Hall.
  rewrite forallb_forall in Hall. specialize (Hall d).
  rewrite forallb_forall in Hall.
  apply Hall; apply list_elem_of_In, elem_of_seqZ; lia.
Qed.

(** At most as many days as the window has: the quotient is between 0 and
    1. *)
Lemma ratio_unit_interval t d :
  0 <= t -> t <= d -> t <= 64 -> 1 <= d < 2 ^ 63 ->
  Float64.leb Float64.zero (Float64.div (Float64.of_int t) (Float64.of_int d)) = true /\
  Float64.leb (Float64.div (Float64.of_int t) (Float64.of_int d)) Float64.one = true.
Proof.
  intros Ht Htd Ht64 Hd.
  destruct (Z.eq_dec t 0) as [-> | Hpos]; [now rewrite ratio_zero |].
  destruct (Z.eq_dec t d) as [-> | Hne].
  - pose proof (small_ratio d d ltac:(lia) ltac:(lia)) as Hok.
    unfold small_ratio_ok in Hok. apply andb_true_iff in Hok as [Hok _].
    now apply andb_true_iff in Hok.
  - apply ratio_le_one; lia.
Qed.

End Float64Facts.

(** ** The rate *)

Lemma CheckinRate_positive c days :
  is_int64 c -> 0 < days ->
  CheckinRate c days =
  Done (Float64.div (Float64.of_int (popcount c (clampedDays days)))
                    (Float64.of_int days)).
Proof.
  intros Hc Hd. unfold CheckinRate. destruct (Z.leb_spec days 0); [lia |].
  now rewrite TotalDaysInPeriod_popcount.
Qed.

Lemma popcount_full : popcount (-1) 64 = 64.
Proof. reflexivity. Qed.

(** C2: [CheckinRate] gives 0.0 for [days <= 0]; for [days >= 1] it gives
    the result of [TotalDaysInPeriod] for [days], converted to float64,
    divided by [days] itself, converted to float64; so for [days > 64] it
    is the number of set bits of the whole record over [days], which for
    the record with all 64 bits set is [64 / days], below 1.0; the rate
    always lies between 0.0 and 1.0.  [days] is an int of Go, of 64 bits. *)
Theorem CheckinRate_ratio (c : CheckinRecord) (days : Z) :
  is_int64 c -> is_int64 days ->
  (days <= 0 -> CheckinRate c days = Done Float64.zero) /\
  (1 <= days ->
     exists total,
       TotalDaysInPeriod c days = Done total /\
       CheckinRate c days =
       Done (Float64.div (Float64.of_int total) (Float64.of_int days))) /\
  (64 < days ->
     CheckinRate c days =
     Done (Float64.div (Float64.of_int (popcount c 64)) (Float64.of_int days))) /\
  (64 < days ->
     CheckinRate (-1) days =
     Done (Float64.div (Float64.of_int 64) (Float64.of_int days)) /\
     Float64.ltb (Float64.div (Float64.of_int 64) (Float64.of_int days))
                 Float64.one = true) /\
  (exists r,
     CheckinRate c days = Done r /\
     Float64.leb Float64.zero r = true /\ Float64.leb r Float64.one = true) /\
  CheckinRate 93 7 = Done (S754_finite false 6433713753386423 (-53)).
Proof.
  intros Hc Hdays.
  assert (Hfull : is_int64 (-1)) by (apply is_int64b_spec; reflexivity).
  assert (Hmax : days < 2 ^ 63)
    by (unfold is_int64, max_int64 in Hdays; lia).
  pose proof (clampedDays_cases days) as [Hover Hin].
  pose proof (clampedDays_range days) as Hw.
  split; [| split; [| split; [| split; [| split; [| reflexivity]]]]].
  - intros Hd. unfold CheckinRate. destruct (Z.leb_spec days 0); [reflexivity | lia].
  - intros Hd. exists (popcount c (clampedDays days)).
    split; [now apply TotalDaysInPeriod_popcount | apply CheckinRate_positive; [assumption | lia]].
  - intros Hd. rewrite CheckinRate_positive, Hover by (assumption || lia). reflexivity.
  - intros Hd. split.
    + rewrite CheckinRate_positive, Hover, popcount_full by (assumption || lia).
      reflexivity.
    + apply ratio_64_lt_one. lia.
  - destruct (Z_le_gt_dec days 0) as [Hd | Hd].
    + exists Float64.zero. split; [| split; reflexivity].
      unfold CheckinRate. destruct (Z.leb_spec days 0); [reflexivity | lia].
    + eexists. split; [apply CheckinRate_positive; [assumption | lia] |].
      pose proof (popcount_bound c (clampedDays days) ltac:(lia)) as Hp.
      apply ratio_unit_interval; lia.
Qed.

Lemma CheckinRate_ratio_witness :
  is_int64 (-1) /\ is_int64 100 /\
  (100 <= 0 -> CheckinRate (-1) 100 = Done Float64.zero) /\
  (1 <= 100 ->
     exists total,
       TotalDaysInPeriod (-1) 100 = Done total /\
       CheckinRate (-1) 100 =
       Done (Float64.div (Float64.of_int total) (Float64.of_int 100))) /\
  (64 < 100 ->
     CheckinRate (-1) 100 =
     Done (Float64.div (Float64.of_int (popcount (-1) 64)) (Float64.of_int 100))) /\
  (64 < 100 ->
     CheckinRate (-1) 100 =
     Done (Float64.div (Float64.of_int 64) (Float64.of_int 100)) /\
     Float64.ltb (Float64.div (Float64.of_int 64) (Float64.of_int 100))
                 Float64.one = true) /\
  (exists r,
     CheckinRate (-1) 100 = Done r /\
     Float64.leb Float64.zero r = true /\ Float64.leb r Float64.one = true) /\
  CheckinRate 93 7 = Done (S754_finite false 6433713753386423 (-53)).
Proof.
  assert (H : is_int64 (-1)) by (apply is_int64b_spec; reflexivity).
  assert (Hd : is_int64 100) by (apply is_int64b_spec; reflexivity).
  split; [exact H |]. split; [exact Hd |]. exact (CheckinRate_ratio (-1) 100 H Hd).
Defined.

(** ** Rendering *)

Lemma string_app_assoc (a b c : string) : ((a ++ b) ++ c = a ++ (b ++ c))%string.
Proof. induction a as [| x a IH]; [reflexivity | cbn; now rewrite IH]. Qed.

Lemma string_app_empty (a : string) : (a ++ "")%string = a.
Proof. induction a as [| x a IH]; [reflexivity | cbn; now rewrite IH]. Qed.

Lemma glyphs_snoc bs b : glyphs (bs ++ [b]) = (glyphs bs ++ glyph_string b)%string.
Proof.
  induction bs as [| b' bs IH]; cbn [glyphs app].
  - now rewrite string_app_empty.
  - now rewrite IH, string_app_assoc.
Qed.

Lemma day_bits_succ c k : 0 <= k -> day_bits c (k + 1) = day_bits c k ++ [bit c k].
Proof. intros Hk. unfold day_bits. now rewrite seqZ_snoc, fmap_app by lia. Qed.

Lemma length_day_bits c n : length (day_bits c n) = Z.to_nat n.
Proof. unfold day_bits. now rewrite length_fmap, length_seqZ. Qed.

Lemma lookup_day_bits c n k :
  0 <= k < n -> day_bits c n !! Z.to_nat k = Some (bit c k).
Proof.
  intros Hk. unfold day_bits. rewrite list_lookup_fmap, lookup_seqZ_lt by lia.
  cbn. f_equal. f_equal. lia.
Qed.

(** Decoding reads one glyph off the front of a string. *)
Lemma runes_of_glyph b s :
  runes_of_string (glyph_string b ++ s) = glyph b :: runes_of_string s.
Proof. destruct b; reflexivity. Qed.

Lemma runes_of_glyphs bs : runes_of_string (glyphs bs) = glyph <$> bs.
Proof.
  induction bs as [| b bs IH]; [reflexivity |].
  cbn [glyphs]. rewrite runes_of_glyph, IH. reflexivity.
Qed.

Lemma encode_glyph b : encode_rune (glyph b) = glyph_string b.
Proof. destruct b; reflexivity. Qed.

Lemma string_of_glyph_runes bs : string_of_runes (glyph <$> bs) = glyphs bs.
Proof.
  induction bs as [| b bs IH]; [reflexivity |].
  cbn [fmap list_fmap string_of_runes glyphs]. now rewrite encode_glyph, IH.
Qed.

Lemma reverse_loop_unfold fuel i j (runes : list rune) :
  reverse_loop fuel i j runes =
  if i <? j then
    match fuel with
    | O => Panic FuelExhausted
    | S fuel' =>
        let* runes' := swap runes i j in
        reverse_loop fuel' (i + 1) (j - 1) runes'
    end
  else Done runes.
Proof. destruct fuel; reflexivity. Qed.

Lemma snoc_cases {A : Type} (l : list A) : l = [] \/ exists l' y, l = l' ++ [y].
Proof.
  induction l as [| y l' _] using rev_ind; [now left | right; now exists l', y].
Qed.

(** Swapping the two ends of the middle part of a slice. *)
Lemma swap_ends (pre mid post : list rune) x y :
  swap (pre ++ x :: mid ++ y :: post)
       (Z.of_nat (length pre))
       (Z.of_nat (length pre) + Z.of_nat (length mid) + 1) =
  Done (pre ++ y :: mid ++ x :: post).
Proof.
  unfold swap.
  destruct (Z.ltb_spec (Z.of_nat (length pre)) 0); [lia |].
  destruct (Z.ltb_spec (Z.of_nat (length pre) + Z.of_nat (length mid) + 1) 0); [lia |].
  cbn [orb]. rewrite Nat2Z.id.
  replace (Z.to_nat (Z.of_nat (length pre) + Z.of_nat (length mid) + 1))
    with (length (pre ++ x :: mid)) by (rewrite length_app; cbn [length]; lia).
  rewrite list_lookup_middle by reflexivity.
  replace (pre ++ x :: mid ++ y :: post) with ((pre ++ x :: mid) ++ y :: post)
    by (now rewrite <- app_assoc).
  rewrite list_lookup_middle by reflexivity.
  rewrite insert_app_r_alt, Nat.sub_diag by lia. cbn [insert list_insert].
  rewrite <- app_assoc. cbn [app].
  rewrite insert_app_r_alt, Nat.sub_diag by lia. reflexivity.
Qed.

(** The loop reverses the part of the slice between its two indices; the
    iterations it is given are enough as soon as they are half that
    part. *)
Lemma reverse_loop_middle fuel : forall (pre mid post : list rune),
  (length mid <= 2 * fuel + 1)%nat ->
  reverse_loop fuel
    (Z.of_nat (length pre))
    (Z.of_nat (length pre) + Z.of_nat (length mid) - 1)
    (pre ++ mid ++ post) =
  Done (pre ++ reverse mid ++ post).
Proof.
  induction fuel as [| fuel IH]; intros pre mid post Hfuel;
    rewrite reverse_loop_unfold.
  - destruct (Z.ltb_spec (Z.of_nat (length pre))
                (Z.of_nat (length pre) + Z.of_nat (length mid) - 1)); [lia |].
    destruct mid as [| x [| y mid]]; [reflexivity | reflexivity | cbn in Hfuel; lia].
  - destruct mid as [| x mid].
    { destruct (Z.ltb_spec (Z.of_nat (length pre))
                  (Z.of_nat (length pre) + Z.of_nat (@length rune []) - 1));
        [cbn in *; lia | reflexivity]. }
    destruct (snoc_cases mid) as [-> | (mid' & y & ->)].
    { destruct (Z.ltb_spec (Z.of_nat (length pre))
                  (Z.of_nat (length pre) + Z.of_nat (length [x]) - 1));
        [cbn in *; lia | reflexivity]. }
    cbn [length] in *. rewrite length_app in *. cbn [length] in *.
    destruct (Z.ltb_spec (Z.of_nat (length pre))
                (Z.of_nat (length pre) + Z.of_nat (S (length mid' + 1)) - 1));
      [| lia].
    replace (pre ++ (x :: mid' ++ [y]) ++ post) with (pre ++ x :: mid' ++ y :: post)
      by (cbn [app]; now rewrite <- app_assoc).
    replace (Z.of_nat (length pre) + Z.of_nat (S (length mid' + 1)) - 1)
      with (Z.of_nat (length pre) + Z.of_nat (length mid') + 1) by lia.
    rewrite swap_ends. cbn [bind].
    specialize (IH (pre ++ [y]) mid' (x :: post) ltac:(lia)).
    rewrite length_app in IH. cbn [length] in IH.
    replace (Z.of_nat (length pre) + 1) with (Z.of_nat (length pre + 1)) by lia.
    replace (Z.of_nat (length pre) + Z.of_nat (length mid') + 1 - 1)
      with (Z.of_nat (length pre + 1) + Z.of_nat (length mid') - 1) by lia.
    replace (pre ++ y :: mid' ++ x :: post) with ((pre ++ [y]) ++ mid' ++ x :: post)
      by (now rewrite <- app_assoc).
    rewrite IH. rewrite reverse_cons, reverse_snoc.
    rewrite <- !app_assoc. reflexivity.
Qed.

Lemma reverse_loop_whole (runes : list rune) :
  reverse_loop (length runes) 0 (Z.of_nat (length runes) - 1) runes =
  Done (reverse runes).
Proof.
  pose proof (reverse_loop_middle (length runes) [] runes [] ltac:(lia)) as H.
  cbn [length app] in H. rewrite !app_nil_r in H. exact H.
Qed.

Lemma StringWithDays_glyphs c days :
  is_int64 c ->
  StringWithDays c days = Done (glyphs (reverse (day_bits c (clampedDays days)))).
Proof.
  intros Hc. unfold StringWithDays. fold (clampedDays days).
  pose proof (clampedDays_range days) as Hw.
  match goal with
  | |- context [for_range 0 _ ?body ?s0] =>
      destruct (for_range_rule body
                  (fun k result => result = glyphs (day_bits c k))
                  (fun _ => False) 0 (clampedDays days) s0)
        as (str & Hrun & Hpost)
  end.
  - lia.
  - reflexivity.
  - intros k result Hk ->. left. rewrite mask_test by (assumption || lia).
    rewrite day_bits_succ, glyphs_snoc by lia.
    destruct (bit c k); eexists; (split; reflexivity).
  - destruct Hpost as [-> | []]. rewrite Hrun. cbn [bind].
    rewrite runes_of_glyphs, reverse_loop_whole. cbn [bind].
    now rewrite <- fmap_reverse, string_of_glyph_runes.
Qed.

(** C8: [StringWithDays] ends normally with the glyphs of the days
    [w-1, ..., 0], in this order, where [w] is the clamped number of days:
    the string decodes to exactly [w] runes, the rune at position [k] being
    the checked glyph if bit [w-1-k] is set and the missed glyph if not;
    [String] is [StringWithDays] for 7 days. *)
Theorem StringWithDays_oldest_first (c : CheckinRecord) (days : Z) :
  is_int64 c ->
  (exists s ds,
     StringWithDays c days = Done s /\
     s = glyphs ds /\
     runes_of_string s = glyph <$> ds /\
     Z.of_nat (length ds) = clampedDays days /\
     (forall k, 0 <= k < clampedDays days ->
        ds !! Z.to_nat k = Some (bit c (clampedDays days - 1 - k)))) /\
  (days <= 0 \/ 64 < days -> clampedDays days = 64) /\
  (0 < days <= 64 -> clampedDays days = days) /\
  String_ c = StringWithDays c 7 /\
  StringWithDays 7 3 = Done "✓✓✓"%string /\
  StringWithDays 5 3 = Done "✓✗✓"%string.
Proof.
  intros Hc. pose proof (clampedDays_range days) as Hw.
  split; [| split; [apply clampedDays_cases |
            split; [apply clampedDays_cases | repeat split; reflexivity]]].
  exists (glyphs (reverse (day_bits c (clampedDays days)))),
         (reverse (day_bits c (clampedDays days))).
  split; [now apply StringWithDays_glyphs |]. split; [reflexivity |].
  split; [apply runes_of_glyphs |].
  split; [rewrite length_reverse, length_day_bits; lia |].
  intros k Hk. rewrite reverse_lookup by (rewrite length_day_bits; lia).
  rewrite length_day_bits.
  replace (Z.to_nat (clampedDays days) - S (Z.to_nat k))%nat
    with (Z.to_nat (clampedDays days - 1 - k)) by lia.
  apply lookup_day_bits. lia.
Qed.

Lemma StringWithDays_oldest_first_witness :
  is_int64 5 /\
  (exists s ds,
     StringWithDays 5 0 = Done s /\
     s = glyphs ds /\
     runes_of_string s = glyph <$> ds /\
     Z.of_nat (length ds) = clampedDays 0 /\
     (forall k, 0 <= k < clampedDays 0 ->
        ds !! Z.to_nat k = Some (bit 5 (clampedDays 0 - 1 - k)))) /\
  (0 <= 0 \/ 64 < 0 -> clampedDays 0 = 64) /\
  (0 < 0 <= 64 -> clampedDays 0 = 0) /\
  String_ 5 = StringWithDays 5 7 /\
  StringWithDays 7 3 = Done "✓✓✓"%string /\
  StringWithDays 5 3 = Done "✓✗✓"%string.
Proof.
  assert (H : is_int64 5) by (apply is_int64b_spec; reflexivity).
  split; [exact H |]. exact (StringWithDays_oldest_first 5 0 H).
Defined.

(** ** The binary form *)

Lemma pattern_double a (b : bool) n :
  pattern (2 * a + Z.b2z b) (S n) =
  (pattern a n ++ String (if b then "1" else "0")%char "")%string.
Proof.
  induction n as [| n IH].
  - cbn [pattern append]. unfold bit. now rewrite Z.testbit_0_r.
  - change (pattern (2 * a + Z.b2z b) (S (S n)))
      with (String (if bit (2 * a + Z.b2z b) (Z.of_nat (S n)) then "1" else "0")%char
              (pattern (2 * a + Z.b2z b) (S n))).
    rewrite IH. cbn [pattern append]. unfold bit.
    rewrite Nat2Z.inj_succ, Z.testbit_succ_r by lia. reflexivity.
Qed.

Lemma strip_zeros_pattern_0 n s : strip_zeros (pattern 0 n ++ s) = strip_zeros s.
Proof.
  induction n as [| n IH]; [reflexivity |].
  cbn [pattern append strip_zeros]. unfold bit. rewrite Z.bits_0. exact IH.
Qed.

Lemma strip_zeros_app a s t :
  strip_zeros a = String "1" s -> strip_zeros (a ++ t) = String "1" (s ++ t).
Proof.
  induction a as [| x a IH]; [discriminate |].
  cbn [strip_zeros append]. destruct (Ascii.eqb x "0"); [exact IH |].
  intros [= -> ->]. reflexivity.
Qed.

Lemma digits2_buf u : forall buf,
  Fmt.digits2 u buf = (Fmt.digits2 u "" ++ buf)%string.
Proof.
  induction u as [u IH | u IH |]; intros buf; cbn [Fmt.digits2]; [| | reflexivity].
  - rewrite (IH (String "1" buf)), (IH (String "1" "")), string_app_assoc. reflexivity.
  - rewrite (IH (String "0" buf)), (IH (String "0" "")), string_app_assoc. reflexivity.
Qed.

Lemma digits2_leading_one u : exists s, Fmt.digits2 u "" = String "1" s.
Proof.
  induction u as [u [s IH] | u [s IH] |]; cbn [Fmt.digits2]; [| | now exists ""%string].
  - rewrite digits2_buf, IH. now eexists.
  - rewrite digits2_buf, IH. now eexists.
Qed.

Lemma digits2_pattern u : forall n,
  Z.pos u < 2 ^ Z.of_nat n -> strip_zeros (pattern (Z.pos u) n) = Fmt.digits2 u "".
Proof.
  induction u as [u IH | u IH |]; intros [| n] Hn;
    try (cbn in Hn; lia); rewrite Nat2Z.inj_succ, Z.pow_succ_r in Hn by lia.
  - change (Z.pos u~1) with (2 * Z.pos u + Z.b2z true). rewrite pattern_double.
    destruct (digits2_leading_one u) as [s Hs].
    rewrite (strip_zeros_app _ s) by (rewrite IH by lia; exact Hs).
    cbn [Fmt.digits2]. now rewrite digits2_buf, Hs.
  - change (Z.pos u~0) with (2 * Z.pos u + Z.b2z false). rewrite pattern_double.
    destruct (digits2_leading_one u) as [s Hs].
    rewrite (strip_zeros_app _ s) by (rewrite IH by lia; exact Hs).
    cbn [Fmt.digits2]. now rewrite digits2_buf, Hs.
  - change 1 with (2 * 0 + Z.b2z true). rewrite pattern_double.
    now rewrite strip_zeros_pattern_0.
Qed.

(** A record with a day checked and bit 63 clear prints as its bit
    pattern. *)
Lemma Binary_bit_63_clear c :
  0 < c <= max_int64 -> Binary c = ("0b" ++ raw_pattern c)%string.
Proof.
  intros Hc. unfold Binary, raw_pattern. f_equal.
  destruct c as [| u | u]; try lia. cbn [Fmt.verb_b].
  symmetry. apply digits2_pattern. unfold max_int64 in Hc.
  change (2 ^ Z.of_nat 64) with (2 ^ 64). rewrite pow2_64. rewrite pow2_63 in Hc. lia.
Qed.

(** A negative record prints as a minus sign and the binary digits of its
    magnitude. *)
Lemma Binary_negative c :
  c < 0 -> Binary c = ("0b-" ++ Fmt.verb_b (- c))%string.
Proof. intros Hc. destruct c as [| u | u]; try lia. reflexivity. Qed.

(** C1, where the code departs from it: on the record with all 64 days
    checked, bit 63 among them, [Binary] gives a minus sign and the
    magnitude 1, not the 64 one bits of the record; on the record with
    day 63 alone checked it gives a minus sign and the magnitude 2^63. *)
Theorem Binary_bit_63_set_prints_sign :
  IsCheckedDay (-1) 63 = Done true /\
  Binary (-1) = "0b-1"%string /\
  ("0b" ++ raw_pattern (-1))%string =
    "0b1111111111111111111111111111111111111111111111111111111111111111"%string /\
  Binary (-1) <> ("0b" ++ raw_pattern (-1))%string /\
  CheckinDay 0 63 = Done min_int64 /\
  Binary min_int64 =
    "0b-1000000000000000000000000000000000000000000000000000000000000000"%string /\
  Binary min_int64 <> ("0b" ++ raw_pattern min_int64)%string.
Proof.
  repeat split; try reflexivity; intros H; vm_compute in H; discriminate H.
Qed.

(** ** The tests of the repository, evaluated on the model *)

Example TestCheckinRecord_Basic :
  ToInt64 NewCheckinRecord = 0 /\
  IsCheckedToday (Checkin NewCheckinRecord) = true /\
  ContinuousDays (Checkin NewCheckinRecord) = Done 1.
Proof. repeat split; reflexivity. Qed.

Example TestCheckinRecord_ContinuousDays :
  ContinuousDays 0 = Done 0 /\ ContinuousDays 1 = Done 1 /\
  ContinuousDays 7 = Done 3 /\ ContinuousDays 127 = Done 7 /\
  ContinuousDays 9 = Done 1.
Proof. repeat split; reflexivity. Qed.

Example TestCheckinRecord_MaxContinuousDays :
  MaxContinuousDays 0 = Done 0 /\ MaxContinuousDays 127 = Done 7 /\
  MaxContinuousDays 115 = Done 3 /\ MaxContinuousDays 246 = Done 4.
Proof. repeat split; reflexivity. Qed.

Example TestCheckinRecord_CheckinRate :
  CheckinRate 93 7 = Done (Float64.div (Float64.of_int 5) (Float64.of_int 7)).
Proof. reflexivity. Qed.

(** The largest number of days converts to 2^63, the nearest float64, and
    the rate of the full record over it is 64 / 2^63 = 2^-57. *)
Example CheckinRate_largest_window :
  Float64.of_int max_int64 = S754_finite false 4503599627370496 11 /\
  CheckinRate (-1) max_int64 = Done (S754_finite false 4503599627370496 (-109)).
Proof. split; reflexivity. Qed.

Example Example_Basic_render :
  StringWithDays (Checkin NewCheckinRecord) 7 = Done "✗✗✗✗✗✗✓"%string.
Proof. reflexivity. Qed.

(** ** The bitmap *)

Lemma GetDaysBitmap_day_bits c days :
  is_int64 c -> GetDaysBitmap c days = Done (day_bits c (clampedDays days)).
Proof.
  intros Hc. unfold GetDaysBitmap. fold (clampedDays days).
  pose proof (clampedDays_range days) as Hw.
  match goal with
  | |- context [for_range 0 _ ?body ?s0] =>
      destruct (for_range_rule body
                  (fun k result =>
                     result = day_bits c k ++
                              replicate (Z.to_nat (clampedDays days - k)) false)
                  (fun _ => False) 0 (clampedDays days) s0)
        as (bm & Hrun & Hpost)
  end.
  - lia.
  - now rewrite Z.sub_0_r.
  - intros k result Hk ->. left.
    rewrite shl_count by lia. cbn [bind]. rewrite bit_test by (assumption || lia).
    unfold assign. rewrite length_app, length_day_bits, length_replicate.
    destruct (Z.ltb_spec k 0); [lia |].
    destruct (Z.leb_spec (Z.of_nat (Z.to_nat k + Z.to_nat (clampedDays days - k))) k);
      [lia |].
    cbn [orb bind]. eexists. split; [reflexivity |].
    replace (Z.to_nat (clampedDays days - k))
      with (S (Z.to_nat (clampedDays days - (k + 1)))) by lia.
    cbn [replicate].
    rewrite insert_app_r_alt by (rewrite length_day_bits; lia).
    rewrite length_day_bits, Nat.sub_diag. cbn [insert list_insert].
    rewrite day_bits_succ by lia. now rewrite <- app_assoc.
  - destruct Hpost as [-> | []]. rewrite Hrun, Z.sub_diag. cbn [Z.to_nat replicate].
    now rewrite app_nil_r.
Qed.

Lemma count_true_day_bits c n : count_true (day_bits c n) = popcount c n.
Proof.
  unfold count_true, popcount, day_bits. f_equal. f_equal.
  induction (seqZ 0 n) as [| i l IH]; [reflexivity |].
  cbn [fmap list_fmap List.filter]. destruct (bit c i); cbn [length]; now rewrite IH.
Qed.

(** X1: [GetDaysBitmap] ends normally, without an index out of range, with
    a slice of as many entries as the clamped number of days, entry [i]
    telling whether day [i] is checked: today first. *)
Theorem GetDaysBitmap_entries (c : CheckinRecord) (days : Z) :
  is_int64 c ->
  exists bm,
    GetDaysBitmap c days = Done bm /\
    Z.of_nat (length bm) = clampedDays days /\
    (forall i, 0 <= i < clampedDays days -> bm !! Z.to_nat i = Some (bit c i)).
Proof.
  intros Hc. pose proof (clampedDays_range days) as Hw.
  exists (day_bits c (clampedDays days)).
  split; [now apply GetDaysBitmap_day_bits |].
  split; [rewrite length_day_bits; lia |].
  intros i Hi. now apply lookup_day_bits.
Qed.

Lemma GetDaysBitmap_entries_witness :
  is_int64 93 /\
  exists bm,
    GetDaysBitmap 93 7 = Done bm /\
    Z.of_nat (length bm) = clampedDays 7 /\
    (forall i, 0 <= i < clampedDays 7 -> bm !! Z.to_nat i = Some (bit 93 i)).
Proof.
  assert (H : is_int64 93) by (apply is_int64b_spec; reflexivity).
  split; [exact H |]. exact (GetDaysBitmap_entries 93 7 H).
Defined.

(** X2: the string of [StringWithDays] is the bitmap of [GetDaysBitmap]
    for the same number of days, read from its last entry to its first,
    one glyph per entry. *)
Theorem StringWithDays_reads_bitmap_backwards (c : CheckinRecord) (days : Z) :
  is_int64 c ->
  StringWithDays c days =
  (let* bm := GetDaysBitmap c days in Done (glyphs (reverse bm))).
Proof.
  intros Hc. rewrite GetDaysBitmap_day_bits, StringWithDays_glyphs by assumption.
  reflexivity.
Qed.

Lemma StringWithDays_reads_bitmap_backwards_witness :
  is_int64 93 /\
  StringWithDays 93 7 =
  (let* bm := GetDaysBitmap 93 7 in Done (glyphs (reverse bm))).
Proof.
  assert (H : is_int64 93) by (apply is_int64b_spec; reflexivity).
  split; [exact H |]. exact (StringWithDays_reads_bitmap_backwards 93 7 H).
Defined.

(** X3: [TotalDaysInPeriod] is the number of true entries of the bitmap of
    [GetDaysBitmap] for the same number of days. *)
Theorem TotalDaysInPeriod_counts_bitmap (c : CheckinRecord) (days : Z) :
  is_int64 c ->
  TotalDaysInPeriod c days =
  (let* bm := GetDaysBitmap c days in Done (count_true bm)).
Proof.
  intros Hc. rewrite GetDaysBitmap_day_bits, TotalDaysInPeriod_popcount by assumption.
  cbn [bind]. now rewrite count_true_day_bits.
Qed.

Lemma TotalDaysInPeriod_counts_bitmap_witness :
  is_int64 93 /\
  TotalDaysInPeriod 93 100 =
  (let* bm := GetDaysBitmap 93 100 in Done (count_true bm)).
Proof.
  assert (H : is_int64 93) by (apply is_int64b_spec; reflexivity).
  split; [exact H |]. exact (TotalDaysInPeriod_counts_bitmap 93 100 H).
Defined.

(** ** Marking days, again *)

Lemma CheckinDay_cases c d :
  CheckinDay c d =
  Done (if (d <? 0) || (d >=? 64) then c else Z.lor c (shl64 1 d)).
Proof.
  unfold CheckinDay. destruct (Z.ltb_spec d 0); [reflexivity |].
  destruct (Z.geb_spec d 64); [reflexivity |]. cbn [orb].
  now rewrite shl_count by lia.
Qed.

Lemma land_1_cases c : Z.land c 1 = 0 \/ Z.land c 1 = 1.
Proof.
  assert (H : Z.land c 1 = c mod 2) by (apply (Z.land_ones c 1); lia).
  rewrite H. pose proof (Z.mod_pos_bound c 2 eq_refl). lia.
Qed.

(** X4: [Checkin] is [CheckinDay] for day 0, and [IsCheckedToday] is
    [IsCheckedDay] for day 0. *)
Theorem today_is_day_0 (c : CheckinRecord) :
  CheckinDay c 0 = Done (Checkin c) /\
  IsCheckedDay c 0 = Done (IsCheckedToday c).
Proof.
  split; [reflexivity |].
  unfold IsCheckedDay, IsCheckedToday. cbn [Z.ltb Z.geb Z.compare orb shl bind].
  change (shl64 1 0) with 1. f_equal.
  destruct (land_1_cases c) as [-> | ->]; reflexivity.
Qed.

(** X5: checking two days in one order or the other gives the same
    record, and checking a day twice is checking it once; this holds for
    days outside [0, 64) too, which change nothing. *)
Theorem CheckinDay_order_irrelevant (c : CheckinRecord) (d1 d2 : Z) :
  (let* a := CheckinDay c d1 in CheckinDay a d2) =
  (let* a := CheckinDay c d2 in CheckinDay a d1) /\
  (let* a := CheckinDay c d1 in CheckinDay a d1) = CheckinDay c d1.
Proof.
  rewrite (CheckinDay_cases c d1), (CheckinDay_cases c d2). cbn [bind].
  rewrite !CheckinDay_cases.
  destruct ((d1 <? 0) || (d1 >=? 64)), ((d2 <? 0) || (d2 >=? 64));
    split; try reflexivity; f_equal; rewrite <- !Z.lor_assoc; f_equal;
    (apply Z.lor_comm || apply Z.lor_diag).
Qed.

Lemma popcount_lor_mask c d : forall w,
  0 <= w -> w <= 64 -> 0 <= d < 64 ->
  popcount (Z.lor c (shl64 1 d)) w =
  popcount c w + (if (d <? w) && negb (bit c d) then 1 else 0).
Proof.
  intros w Hw. pattern w. apply natlike_ind; [| | exact Hw].
  - intros _ Hd. rewrite !popcount_0. destruct (Z.ltb_spec d 0); [lia | reflexivity].
  - intros k Hk IH Hle Hd. unfold Z.succ in *. rewrite !popcount_succ by lia.
    rewrite IH, CheckinDay_bits by lia.
    destruct (Z.eqb_spec k d) as [-> | Hne].
    + destruct (Z.ltb_spec d d); [lia |]. destruct (Z.ltb_spec d (d + 1)); [| lia].
      destruct (bit c d); cbn [orb andb negb]; lia.
    + cbn [orb].
      destruct (Z.ltb_spec d k), (Z.ltb_spec d (k + 1)); try lia; reflexivity.
Qed.

(** X6: checking a day in [0, 64) that was not checked adds one to the
    total of every window that contains the day, and leaves the total of
    the other windows, and of any window if the day was checked already,
    as it was. *)
Theorem TotalDaysInPeriod_after_CheckinDay (c : CheckinRecord) (d days : Z) :
  is_int64 c -> 0 <= d < 64 ->
  exists c',
    CheckinDay c d = Done c' /\
    TotalDaysInPeriod c' days =
    (let* t := TotalDaysInPeriod c days in
     Done (t + if (d <? clampedDays days) && negb (bit c d) then 1 else 0)).
Proof.
  intros Hc Hd. pose proof (clampedDays_range days) as Hw.
  exists (Z.lor c (shl64 1 d)). split; [now apply CheckinDay_in_range |].
  rewrite !TotalDaysInPeriod_popcount
    by (assumption || (apply lor_int64; [assumption | apply shl64_range])).
  cbn [bind]. now rewrite popcount_lor_mask by lia.
Qed.

Lemma TotalDaysInPeriod_after_CheckinDay_witness :
  is_int64 5 /\ 0 <= 1 < 64 /\
  exists c',
    CheckinDay 5 1 = Done c' /\
    TotalDaysInPeriod c' 7 =
    (let* t := TotalDaysInPeriod 5 7 in
     Done (t + if (1 <? clampedDays 7) && negb (bit 5 1) then 1 else 0)).
Proof.
  assert (H : is_int64 5) by (apply is_int64b_spec; reflexivity).
  assert (Hd : 0 <= 1 < 64) by lia.
  split; [exact H |]. split; [exact Hd |].
  exact (TotalDaysInPeriod_after_CheckinDay 5 1 7 H Hd).
Defined.

(** ** Streaks over the days *)

Lemma ContinuousDays_spec c :
  is_int64 c ->
  exists n,
    ContinuousDays c = Done n /\ 0 <= n <= 64 /\ run c 0 n /\
    (n = 64 \/ bit c n = false).
Proof.
  intros Hc. unfold ContinuousDays.
  match goal with
  | |- context [for_range 0 64 ?body ?s0] =>
      destruct (for_range_rule body
                  (fun k count => count = k /\ run c 0 k)
                  (fun count => 0 <= count < 64 /\ run c 0 count /\ bit c count = false)
                  0 64 s0) as (n & Hrun & Hpost)
  end.
  - lia.
  - split; [reflexivity | apply run_empty].
  - intros k count Hk (-> & Hset). rewrite mask_test by assumption.
    destruct (bit c k) eqn:Hb.
    + left. eexists. split; [reflexivity |]. split; [reflexivity |].
      apply run_extend; [lia | exact Hset | exact Hb].
    + right. eexists. split; [reflexivity |]. split; [lia |]. split; assumption.
  - exists n. split; [exact Hrun |].
    destruct Hpost as [(-> & Hset) | (Hn & Hset & Hclear)].
    + split; [lia |]. split; [exact Hset | now left].
    + split; [lia |]. split; [exact Hset | now right].
Qed.

Lemma ContinuousDays_is c n :
  is_int64 c -> 0 <= n <= 64 -> run c 0 n -> (n = 64 \/ bit c n = false) ->
  ContinuousDays c = Done n.
Proof.
  intros Hc Hn Hrun Hend.
  destruct (ContinuousDays_spec c Hc) as (n' & -> & Hn' & Hrun' & Hend').
  f_equal. now apply (streak_unique c).
Qed.

Lemma Checkin_bit r k : bit (Checkin r) k = (k =? 0) || bit r k.
Proof.
  unfold Checkin, bit. destruct (Z_lt_dec k 0) as [Hk | Hk].
  - rewrite !Z.testbit_neg_r by lia. destruct (Z.eqb_spec k 0); [lia | reflexivity].
  - rewrite Z.lor_spec. change 1 with (2 ^ 0) at 1.
    rewrite Z.pow2_bits_eqb, (Z.eqb_sym 0 k) by lia. apply orb_comm.
Qed.

Lemma Checkin_int64 c : is_int64 c -> is_int64 (Checkin c).
Proof.
  intros Hc. apply lor_int64; [exact Hc |]. apply is_int64b_spec. reflexivity.
Qed.

Lemma ShiftDay_int64 c : is_int64 (ShiftDay c).
Proof. apply shl64_range. Qed.

(** X7: a shift followed by a check-in makes a streak of [n] days one of
    [n + 1] days, up to the 64 days a record holds; after the shift alone
    the streak is 0. *)
Theorem streak_after_ShiftDay_Checkin (c : CheckinRecord) :
  is_int64 c ->
  exists n,
    ContinuousDays c = Done n /\
    ContinuousDays (Checkin (ShiftDay c)) = Done (Z.min 64 (n + 1)) /\
    ContinuousDays (ShiftDay c) = Done 0.
Proof.
  intros Hc. destruct (ContinuousDays_spec c Hc) as (n & Hn & Hrange & Hrun & Hend).
  exists n. split; [exact Hn |]. split.
  - apply ContinuousDays_is.
    + apply Checkin_int64, ShiftDay_int64.
    + lia.
    + intros j Hj. rewrite Checkin_bit, ShiftDay_bits by lia.
      destruct (Z.eqb_spec j 0); [reflexivity |]. cbn [orb]. apply Hrun. lia.
    + destruct (Z_le_gt_dec 64 (n + 1)); [left; lia | right].
      rewrite Z.min_r by lia. rewrite Checkin_bit, ShiftDay_bits by lia.
      destruct (Z.eqb_spec (n + 1) 0); [lia |]. cbn [orb].
      replace (n + 1 - 1) with n by lia. destruct Hend; [lia | assumption].
  - apply ContinuousDays_is; [apply ShiftDay_int64 | lia | apply run_empty |].
    right. now rewrite ShiftDay_bits by lia.
Qed.

Lemma streak_after_ShiftDay_Checkin_witness :
  is_int64 (-1) /\
  exists n,
    ContinuousDays (-1) = Done n /\
    ContinuousDays (Checkin (ShiftDay (-1))) = Done (Z.min 64 (n + 1)) /\
    ContinuousDays (ShiftDay (-1)) = Done 0.
Proof.
  assert (H : is_int64 (-1)) by (apply is_int64b_spec; reflexivity).
  split; [exact H |]. exact (streak_after_ShiftDay_Checkin (-1) H).
Defined.

Lemma iter_ShiftDay_int64 c n : is_int64 c -> is_int64 (Nat.iter n ShiftDay c).
Proof.
  intros Hc. destruct n; [exact Hc |]. rewrite Nat.iter_succ. apply ShiftDay_int64.
Qed.

Lemma iter_ShiftDay_bits c n : forall d,
  0 <= d < 64 ->
  bit (Nat.iter n ShiftDay c) d = (Z.of_nat n <=? d) && bit c (d - Z.of_nat n).
Proof.
  induction n as [| n IH]; intros d Hd.
  - change (Nat.iter 0 ShiftDay c) with c.
    destruct (Z.leb_spec (Z.of_nat 0) d); [| lia].
    cbn [andb]. f_equal. lia.
  - rewrite Nat.iter_succ, ShiftDay_bits by lia.
    destruct (Z.eqb_spec d 0) as [-> | Hne].
    + destruct (Z.leb_spec (Z.of_nat (S n)) 0); [lia | reflexivity].
    + rewrite IH by lia.
      destruct (Z.leb_spec (Z.of_nat n) (d - 1)), (Z.leb_spec (Z.of_nat (S n)) d);
        try lia; cbn [andb]; try reflexivity.
      f_equal. lia.
Qed.

(** X8: after [n] shifts the day that was day [d - n] is day [d], and the
    days below [n] are not checked; after 64 shifts or more the record is
    empty, whatever it held. *)
Theorem ShiftDay_iterated (c : CheckinRecord) (n : nat) :
  is_int64 c ->
  (forall d, 0 <= d < 64 ->
     IsCheckedDay (Nat.iter n ShiftDay c) d =
     Done ((Z.of_nat n <=? d) && bit c (d - Z.of_nat n))) /\
  ((64 <= n)%nat -> Nat.iter n ShiftDay c = 0).
Proof.
  intros Hc. split.
  - intros d Hd. rewrite IsCheckedDay_bit by (try apply iter_ShiftDay_int64; assumption).
    now rewrite iter_ShiftDay_bits.
  - intros Hn. apply int64_bits_inj.
    + now apply iter_ShiftDay_int64.
    + apply is_int64b_spec. reflexivity.
    + intros k Hk. fold (bit (Nat.iter n ShiftDay c) k).
      rewrite iter_ShiftDay_bits, Z.bits_0 by lia.
      destruct (Z.leb_spec (Z.of_nat n) k); [lia | reflexivity].
Qed.

Lemma ShiftDay_iterated_witness :
  is_int64 (-1) /\
  (forall d, 0 <= d < 64 ->
     IsCheckedDay (Nat.iter 3 ShiftDay (-1)) d =
     Done ((Z.of_nat 3 <=? d) && bit (-1) (d - Z.of_nat 3))) /\
  ((64 <= 3)%nat -> Nat.iter 3 ShiftDay (-1) = 0).
Proof.
  assert (H : is_int64 (-1)) by (apply is_int64b_spec; reflexivity).
  split; [exact H |]. exact (ShiftDay_iterated (-1) 3 H).
Defined.

(** X14: the streak is 0 exactly when today is not checked. *)
Theorem no_streak_iff_not_checked_today (c : CheckinRecord) :
  is_int64 c ->
  (ContinuousDays c = Done 0 <-> IsCheckedToday c = false).
Proof.
  intros Hc. rewrite IsCheckedToday_bit.
  destruct (ContinuousDays_spec c Hc) as (n & Hn & Hrange & Hrun & Hend).
  rewrite Hn. split.
  - intros [= ->]. destruct Hend; [lia | assumption].
  - intros Hclear. f_equal. destruct (Z.eq_dec n 0) as [| Hpos]; [assumption |].
    rewrite (Hrun 0) in Hclear by lia. discriminate.
Qed.

Lemma no_streak_iff_not_checked_today_witness :
  is_int64 6 /\ (ContinuousDays 6 = Done 0 <-> IsCheckedToday 6 = false).
Proof.
  assert (H : is_int64 6) by (apply is_int64b_spec; reflexivity).
  split; [exact H |]. exact (no_streak_iff_not_checked_today 6 H).
Defined.

(** ** How the statistics relate *)

Lemma popcount_mono c a : forall b,
  0 <= a -> a <= b -> popcount c a <= popcount c b <= popcount c a + (b - a).
Proof.
  intros b Ha Hab. replace b with (a + (b - a)) by lia.
  assert (Hd : 0 <= b - a) by lia. revert Hd. generalize (b - a) as d.
  intros d Hd. pattern d. apply natlike_ind; [| | exact Hd].
  - rewrite Z.add_0_r. lia.
  - intros k Hk IH. unfold Z.succ. rewrite Z.add_assoc, popcount_succ by lia.
    replace (a + k + 1 - a) with (k + 1) by lia.
    replace (a + k - a) with k in IH by lia. destruct (bit c (a + k)); lia.
Qed.

Lemma popcount_run c s : forall l,
  0 <= s -> 0 <= l -> run c s l -> popcount c (s + l) = popcount c s + l.
Proof.
  intros l Hs Hl. pattern l. apply natlike_ind; [| | exact Hl].
  - intros _. now rewrite !Z.add_0_r.
  - intros k Hk IH Hrun. unfold Z.succ. rewrite Z.add_assoc, popcount_succ by lia.
    rewrite IH by (intros j Hj; apply Hrun; lia).
    rewrite (Hrun (s + k)) by lia. lia.
Qed.

Lemma popcount_full_run c : forall n,
  0 <= n -> popcount c n = n -> run c 0 n.
Proof.
  intros n Hn. pattern n. apply natlike_ind; [| | exact Hn].
  - intros _. apply run_empty.
  - intros k Hk IH. unfold Z.succ. rewrite popcount_succ by lia. intros Hfull.
    pose proof (popcount_bound c k Hk) as Hb.
    destruct (bit c k) eqn:Hbit; [| lia].
    apply (run_extend c 0 k); [lia | apply IH; lia | exact Hbit].
Qed.

(** X9: the streak from today is at most the longest streak, which is at
    most the number of days checked in the whole record. *)
Theorem statistics_ordered (c : CheckinRecord) :
  is_int64 c ->
  exists n m t,
    ContinuousDays c = Done n /\
    MaxContinuousDays c = Done m /\
    TotalDaysInPeriod c 64 = Done t /\
    0 <= n <= m /\ m <= t <= 64.
Proof.
  intros Hc.
  destruct (ContinuousDays_spec c Hc) as (n & Hn & Hrange & Hrun & _).
  destruct (MaxContinuousDays_scan c Hc)
    as (m & Hm & Hmrange & (s & Hs & Hfit & Hset) & Hlong).
  exists n, m, (popcount c 64).
  split; [exact Hn |]. split; [exact Hm |].
  split; [now rewrite TotalDaysInPeriod_popcount |].
  split; [split; [lia | apply (Hlong 0 n); lia || assumption] |].
  pose proof (popcount_run c s m Hs ltac:(lia) Hset) as Hin.
  pose proof (popcount_bound c s Hs) as Hlow.
  pose proof (popcount_mono c (s + m) 64 ltac:(lia) Hfit) as Hup.
  pose proof (popcount_bound c 64 ltac:(lia)) as Hall. lia.
Qed.

Lemma statistics_ordered_witness :
  is_int64 115 /\
  exists n m t,
    ContinuousDays 115 = Done n /\
    MaxContinuousDays 115 = Done m /\
    TotalDaysInPeriod 115 64 = Done t /\
    0 <= n <= m /\ m <= t <= 64.
Proof.
  assert (H : is_int64 115) by (apply is_int64b_spec; reflexivity).
  split; [exact H |]. exact (statistics_ordered 115 H).
Defined.

(** X10: a longer window, within the 64 days, counts at least as many
    days, and at most as many more as it is longer. *)
Theorem TotalDaysInPeriod_monotone (c : CheckinRecord) (days1 days2 : Z) :
  is_int64 c -> 1 <= days1 -> days1 <= days2 -> days2 <= 64 ->
  exists t1 t2,
    TotalDaysInPeriod c days1 = Done t1 /\
    TotalDaysInPeriod c days2 = Done t2 /\
    t1 <= t2 <= t1 + (days2 - days1).
Proof.
  intros Hc H1 H12 H2. exists (popcount c days1), (popcount c days2).
  pose proof (clampedDays_cases days1) as [_ Hw1].
  pose proof (clampedDays_cases days2) as [_ Hw2].
  rewrite !TotalDaysInPeriod_popcount, Hw1, Hw2 by (assumption || lia).
  split; [reflexivity |]. split; [reflexivity |]. apply popcount_mono; lia.
Qed.

Lemma TotalDaysInPeriod_monotone_witness :
  is_int64 85 /\ 1 <= 3 /\ 3 <= 7 /\ 7 <= 64 /\
  exists t1 t2,
    TotalDaysInPeriod 85 3 = Done t1 /\
    TotalDaysInPeriod 85 7 = Done t2 /\
    t1 <= t2 <= t1 + (7 - 3).
Proof.
  assert (H : is_int64 85) by (apply is_int64b_spec; reflexivity).
  split; [exact H |]. split; [lia |]. split; [lia |]. split; [lia |].
  apply (TotalDaysInPeriod_monotone 85 3 7 H); lia.
Defined.

Lemma ratio_one (t d : Z) :
  1 <= d <= 64 -> 0 <= t <= d ->
  Float64.eqb (Float64.div (Float64.of_int t) (Float64.of_int d)) Float64.one = true <->
  t = d.
Proof.
  intros Hd Ht. pose proof (small_ratio d t Hd Ht) as Hok.
  unfold small_ratio_ok in Hok. apply andb_true_iff in Hok as [_ Hok].
  apply eqb_prop in Hok. rewrite Hok. apply Z.eqb_eq.
Qed.

(** X11: for a window of 1 to 64 days the rate, a float64, compares equal
    to 1.0 exactly when the streak from today is at least as long as the
    window. *)
Theorem full_rate_iff_streak (c : CheckinRecord) (days : Z) :
  is_int64 c -> 1 <= days <= 64 ->
  exists r n,
    CheckinRate c days = Done r /\
    ContinuousDays c = Done n /\
    (Float64.eqb r Float64.one = true <-> days <= n).
Proof.
  intros Hc Hd.
  destruct (ContinuousDays_spec c Hc) as (n & Hn & Hrange & Hrun & Hend).
  pose proof (clampedDays_cases days) as [_ Hw].
  pose proof (popcount_bound c days ltac:(lia)) as Hb.
  exists (Float64.div (Float64.of_int (popcount c days)) (Float64.of_int days)), n.
  split; [rewrite CheckinRate_positive, Hw by (assumption || lia); reflexivity |].
  split; [exact Hn |]. rewrite ratio_one by lia. split.
  - intros Hfull. apply popcount_full_run in Hfull; [| lia].
    destruct (Z_le_gt_dec days n) as [| Hlt]; [assumption |].
    destruct Hend as [-> | Hclear]; [lia |].
    rewrite (Hfull n) in Hclear by lia. discriminate.
  - intros Hle. pose proof (popcount_run c 0 days ltac:(lia) ltac:(lia)) as Hp.
    rewrite popcount_0 in Hp. apply Hp. intros j Hj. apply Hrun. lia.
Qed.

Lemma full_rate_iff_streak_witness :
  is_int64 127 /\ 1 <= 7 <= 64 /\
  exists r n,
    CheckinRate 127 7 = Done r /\
    ContinuousDays 127 = Done n /\
    (Float64.eqb r Float64.one = true <-> 7 <= n).
Proof.
  assert (H : is_int64 127) by (apply is_int64b_spec; reflexivity).
  assert (Hd : 1 <= 7 <= 64) by lia.
  split; [exact H |]. split; [exact Hd |]. exact (full_rate_iff_streak 127 7 H Hd).
Defined.

(** X15: the longest streak is 0 for the empty record only. *)
Theorem no_longest_streak_iff_empty (c : CheckinRecord) :
  is_int64 c -> (MaxContinuousDays c = Done 0 <-> c = 0).
Proof.
  intros Hc. split; [| intros ->; reflexivity].
  destruct (MaxContinuousDays_scan c Hc) as (m & -> & _ & _ & Hlong).
  intros [= ->]. apply int64_bits_inj; [exact Hc | apply is_int64b_spec; reflexivity |].
  intros k Hk. rewrite Z.bits_0. fold (bit c k).
  destruct (bit c k) eqn:Hb; [| reflexivity].
  specialize (Hlong k 1 ltac:(lia) ltac:(lia) ltac:(lia)).
  assert (Hrun : run c k 1)
    by (intros j Hj; replace j with k by lia; exact Hb).
  specialize (Hlong Hrun). lia.
Qed.

Lemma no_longest_streak_iff_empty_witness :
  is_int64 0 /\ (MaxContinuousDays 0 = Done 0 <-> 0 = 0).
Proof.
  assert (H : is_int64 0) by (apply is_int64b_spec; reflexivity).
  split; [exact H |]. exact (no_longest_streak_iff_empty 0 H).
Defined.

(** ** Day 63 and the sign *)

Lemma int64_sign_bit c : is_int64 c -> bit c 63 = (c <? 0).
Proof.
  unfold is_int64, min_int64, max_int64, bit. intros Hc.
  destruct (Z.ltb_spec c 0) as [Hneg | Hpos].
  - rewrite <- (Z.lnot_involutive c), Z.lnot_spec by lia.
    rewrite <- (Z.mod_small (Z.lnot c) (2 ^ 63)) by (unfold Z.lnot; lia).
    now rewrite Z.mod_pow2_bits_high by lia.
  - rewrite <- (Z.mod_small c (2 ^ 63)) by lia.
    apply Z.mod_pow2_bits_high. lia.
Qed.

(** X12: day 63 is checked exactly when the int64 of the record is
    negative; checking day 63 on the empty record gives the least
    int64. *)
Theorem day_63_is_the_sign (c : CheckinRecord) :
  is_int64 c ->
  IsCheckedDay c 63 = Done (c <? 0) /\
  (exists c', CheckinDay c 63 = Done c' /\ c' < 0) /\
  CheckinDay 0 63 = Done min_int64.
Proof.
  intros Hc. split; [| split; [| reflexivity]].
  - rewrite IsCheckedDay_bit by (assumption || lia). now rewrite int64_sign_bit.
  - exists (Z.lor c (shl64 1 63)). split; [apply CheckinDay_in_range; lia |].
    assert (Hr : is_int64 (Z.lor c (shl64 1 63)))
      by (apply lor_int64; [assumption | apply shl64_range]).
    pose proof (int64_sign_bit _ Hr) as Hs.
    rewrite CheckinDay_bits, Z.eqb_refl in Hs by lia.
    destruct (Z.ltb_spec (Z.lor c (shl64 1 63)) 0); [assumption | discriminate].
Qed.

Lemma day_63_is_the_sign_witness :
  is_int64 5 /\
  IsCheckedDay 5 63 = Done (5 <? 0) /\
  (exists c', CheckinDay 5 63 = Done c' /\ c' < 0) /\
  CheckinDay 0 63 = Done min_int64.
Proof.
  assert (H : is_int64 5) by (apply is_int64b_spec; reflexivity).
  split; [exact H |]. exact (day_63_is_the_sign 5 H).
Defined.

(** ** Rendering after a shift *)

Lemma day_bits_ShiftDay c n :
  1 <= n <= 64 -> day_bits (ShiftDay c) n = false :: day_bits c (n - 1).
Proof.
  intros Hn. unfold day_bits. rewrite seqZ_cons by lia.
  cbn [fmap list_fmap]. rewrite ShiftDay_bits by lia. cbn [Z.eqb]. f_equal.
  change (Z.succ 0) with (1 + 0). rewrite <- fmap_add_seqZ, <- list_fmap_compose.
  unfold Z.pred. replace (n + -1) with (n - 1) by lia.
  apply list_fmap_ext. intros i k Hk. apply lookup_seqZ in Hk as [-> Hi].
  cbn [compose]. rewrite ShiftDay_bits by lia.
  destruct (Z.eqb_spec (1 + (0 + Z.of_nat i)) 0); [lia |]. f_equal. lia.
Qed.

(** X13: after a shift the string of [n] days, for [2 <= n <= 64], is the
    string of [n - 1] days of the record before the shift followed by the
    glyph of a day not checked. *)
Theorem StringWithDays_after_ShiftDay (c : CheckinRecord) (n : Z) :
  is_int64 c -> 2 <= n <= 64 ->
  StringWithDays (ShiftDay c) n =
  (let* s := StringWithDays c (n - 1) in Done (s ++ missed_glyph)%string).
Proof.
  intros Hc Hn.
  pose proof (clampedDays_cases n) as [_ Hw].
  pose proof (clampedDays_cases (n - 1)) as [_ Hw'].
  rewrite !StringWithDays_glyphs by (assumption || apply ShiftDay_int64).
  rewrite Hw, Hw' by lia. cbn [bind].
  rewrite day_bits_ShiftDay, reverse_cons, glyphs_snoc by lia. reflexivity.
Qed.

Lemma StringWithDays_after_ShiftDay_witness :
  is_int64 5 /\ 2 <= 7 <= 64 /\
  StringWithDays (ShiftDay 5) 7 =
  (let* s := StringWithDays 5 (7 - 1) in Done (s ++ missed_glyph)%string).
Proof.
  assert (H : is_int64 5) by (apply is_int64b_spec; reflexivity).
  assert (Hn : 2 <= 7 <= 64) by lia.
  split; [exact H |]. split; [exact Hn |].
  exact (StringWithDays_after_ShiftDay 5 7 H Hn).
Defined.


(** ** The leaderboard of the service *)

Import CheckinService.

Lemma at_index_middle {A : Type} (l1 l2 : list A) x i :
  i = Z.of_nat (length l1) -> at_index (l1 ++ x :: l2) i = Done x.
Proof.
  intros ->. unfold at_index. destruct (Z.ltb_spec (Z.of_nat (length l1)) 0); [lia |].
  now rewrite Nat2Z.id, list_lookup_middle.
Qed.

Lemma assign_middle {A : Type} (l1 l2 : list A) x y i :
  i = Z.of_nat (length l1) -> assign (l1 ++ x :: l2) i y = Done (l1 ++ y :: l2).
Proof.
  intros ->. unfold assign. rewrite length_app. cbn [length].
  destruct (Z.ltb_spec (Z.of_nat (length l1)) 0); [lia |].
  destruct (Z.leb_spec (Z.of_nat (length l1 + S (length l2))) (Z.of_nat (length l1)));
    [lia |].
  cbn [orb]. rewrite Nat2Z.id, insert_app_r_alt, Nat.sub_diag by lia. reflexivity.
Qed.

Lemma swap_adjacent {A : Type} (l1 l2 : list A) x y j :
  j = Z.of_nat (length l1) ->
  swap_at (l1 ++ x :: y :: l2) j (j + 1) = Done (l1 ++ y :: x :: l2).
Proof.
  intros ->. unfold swap_at.
  assert (Hnext : Z.of_nat (length l1) + 1 = Z.of_nat (length (l1 ++ [x])))
    by (rewrite length_app; cbn [length]; lia).
  rewrite at_index_middle by reflexivity. cbn [bind].
  replace (l1 ++ x :: y :: l2) with ((l1 ++ [x]) ++ y :: l2) at 1
    by (now rewrite <- app_assoc).
  rewrite at_index_middle by exact Hnext. cbn [bind].
  rewrite assign_middle by reflexivity. cbn [bind].
  replace (l1 ++ y :: y :: l2) with ((l1 ++ [y]) ++ y :: l2)
    by (now rewrite <- app_assoc).
  rewrite assign_middle by (rewrite Hnext, !length_app; reflexivity).
  now rewrite <- app_assoc.
Qed.

(** The inner loop, started at the index after [done], carries [x] through
    the rest of the part not yet sorted. *)
Lemma compare_swap_iter l : forall done x suf,
  for_iter (length l) (Z.of_nat (length done)) compare_swap (done ++ x :: l ++ suf) =
  Done (done ++ bubble_from x l ++ suf).
Proof.
  induction l as [| y l IH]; intros done x suf; [reflexivity |].
  cbn [length for_iter bubble_from]. unfold compare_swap at 1.
  assert (Hnext : Z.of_nat (length done) + 1 = Z.of_nat (length (done ++ [x])))
    by (rewrite length_app; cbn [length]; lia).
  rewrite at_index_middle by reflexivity. cbn [bind].
  replace (done ++ x :: (y :: l) ++ suf) with ((done ++ [x]) ++ y :: l ++ suf) at 1
    by (now rewrite <- app_assoc).
  rewrite at_index_middle by exact Hnext. cbn [bind].
  destruct (rank_ContinuousDays x <? rank_ContinuousDays y).
  - cbn [app]. rewrite swap_adjacent by reflexivity. cbn [bind].
    replace (done ++ y :: x :: l ++ suf) with ((done ++ [y]) ++ x :: l ++ suf)
      by (now rewrite <- app_assoc).
    replace (Z.of_nat (length done) + 1) with (Z.of_nat (length (done ++ [y])))
      by (rewrite length_app; cbn [length]; lia).
    rewrite IH. now rewrite <- app_assoc.
  - cbn [bind]. rewrite Hnext.
    replace (done ++ x :: (y :: l) ++ suf) with ((done ++ [x]) ++ y :: l ++ suf)
      by (now rewrite <- app_assoc).
    rewrite IH. now rewrite <- app_assoc.
Qed.

Lemma bubble_pass_sinks x l suf :
  bubble_pass (Z.of_nat (length suf)) (x :: l ++ suf) =
  Done (Next (bubble_from x l ++ suf)).
Proof.
  unfold bubble_pass, for_range.
  replace (Z.to_nat (Z.of_nat (length (x :: l ++ suf)) - Z.of_nat (length suf) - 1 - 0))
    with (length l) by (cbn [length]; rewrite length_app; lia).
  pose proof (compare_swap_iter l [] x suf) as H. cbn [length app] in H.
  change (Z.of_nat 0) with 0 in H. now rewrite H.
Qed.

Lemma bubble_from_perm x : forall l, bubble_from x l ≡ₚ x :: l.
Proof.
  intros l. revert x. induction l as [| y l IH]; intros x; [reflexivity |].
  cbn [bubble_from]. destruct (rank_ContinuousDays x <? rank_ContinuousDays y).
  - rewrite IH. apply Permutation_swap.
  - now rewrite IH.
Qed.

Lemma bubble_from_last x : forall l,
  exists init z,
    bubble_from x l = init ++ [z] /\ Forall (fun a => by_streak a z) (x :: l).
Proof.
  intros l. revert x. induction l as [| y l IH]; intros x.
  - exists [], x. split; [reflexivity |]. repeat constructor. unfold by_streak. lia.
  - cbn [bubble_from].
    destruct (Z.ltb_spec (rank_ContinuousDays x) (rank_ContinuousDays y)) as [Hlt | Hge].
    + destruct (IH x) as (init & z & -> & Hmin). exists (y :: init), z.
      split; [reflexivity |]. inversion Hmin as [| ? ? Hx Hl]; subst.
      constructor; [exact Hx |]. constructor; [unfold by_streak in *; lia | exact Hl].
    + destruct (IH y) as (init & z & -> & Hmin). exists (x :: init), z.
      split; [reflexivity |]. inversion Hmin as [| ? ? Hy Hl]; subst.
      constructor; [unfold by_streak in *; lia |]. constructor; assumption.
Qed.

(** What the outer loop knows before pass [i]: the last [i] ranks are in
    their final places, in order, and no rank before them has a shorter
    streak than any of them. *)
Lemma sort_ranks_sorts (ranks : list userRank) :
  exists sorted,
    sort_ranks ranks = Done sorted /\
    sorted ≡ₚ ranks /\ StronglySorted by_streak sorted.
Proof.
  destruct ranks as [| r0 rest].
  { exists []. split; [reflexivity |]. split; [reflexivity | constructor]. }
  set (ranks := r0 :: rest). set (len := Z.of_nat (length ranks)).
  assert (Hlen : 1 <= len) by (unfold len, ranks; cbn [length]; lia).
  unfold sort_ranks. fold len.
  destruct (for_range_rule bubble_pass
              (fun i cur =>
                 exists pre suf,
                   cur = pre ++ suf /\ Z.of_nat (length suf) = i /\
                   Z.of_nat (length pre) = len - i /\ cur ≡ₚ ranks /\
                   StronglySorted by_streak suf /\
                   Forall (fun a => Forall (by_streak a) suf) pre)
              (fun _ => False) 0 (len - 1) ranks) as (sorted & Hrun & Hpost).
  - lia.
  - exists ranks, []. rewrite app_nil_r. split; [reflexivity |].
    split; [reflexivity |]. split; [unfold len; lia |]. split; [reflexivity |].
    split; [constructor |]. apply Forall_forall. intros a _. constructor.
  - intros i cur Hi (pre & suf & -> & Hsuf & Hpre & Hperm & Hsorted & Hdom). left.
    destruct pre as [| x l]; [cbn [length] in Hpre; lia |].
    rewrite <- Hsuf. rewrite <- app_comm_cons, bubble_pass_sinks.
    destruct (bubble_from_last x l) as (init & z & Hlast & Hmin).
    pose proof (bubble_from_perm x l) as Hbubble.
    eexists. split; [reflexivity |]. exists init, (z :: suf).
    rewrite Hlast, <- app_assoc. split; [reflexivity |].
    assert (Hz : z ∈ x :: l)
      by (rewrite <- Hbubble, Hlast, elem_of_app, list_elem_of_singleton; now right).
    assert (Hinit : forall a, a ∈ init -> a ∈ x :: l)
      by (intros a Ha; rewrite <- Hbubble, Hlast, elem_of_app; now left).
    rewrite Forall_forall in Hdom, Hmin.
    split; [cbn [length]; lia |]. split.
    { apply Permutation_length in Hbubble. rewrite Hlast, length_app in Hbubble.
      cbn [length] in *. lia. }
    split.
    { rewrite <- Hperm, <- Hbubble, Hlast, <- app_assoc. reflexivity. }
    split; [constructor; [exact Hsorted | now apply Hdom] |].
    apply Forall_forall. intros a Ha. constructor; [| apply Hdom; now apply Hinit].
    apply Hmin. now apply Hinit.
  - destruct Hpost as [(pre & suf & -> & Hsuf & Hpre & Hperm & Hsorted & Hdom) | []].
    exists (pre ++ suf). split; [exact Hrun |]. split; [exact Hperm |].
    destruct pre as [| a [| b pre]]; cbn [length] in Hpre; try lia.
    cbn [app]. constructor; [exact Hsorted |]. now inversion Hdom.
Qed.

(** X16: the sort of the leaderboard ends normally, without an index out
    of range, for every slice of ranks, the empty one too; what it gives
    is a rearrangement of the ranks in which no rank has a longer streak
    than a rank before it. *)
Theorem sort_ranks_descending (ranks : list userRank) :
  exists sorted,
    sort_ranks ranks = Done sorted /\
    sorted ≡ₚ ranks /\
    length sorted = length ranks /\
    (forall i j a b,
       (i <= j)%nat -> sorted !! i = Some a -> sorted !! j = Some b ->
       rank_ContinuousDays b <= rank_ContinuousDays a).
Proof.
  destruct (sort_ranks_sorts ranks) as (sorted & Hrun & Hperm & Hsorted).
  exists sorted. split; [exact Hrun |]. split; [exact Hperm |].
  split; [now apply Permutation_length |].
  clear Hrun Hperm. induction Hsorted as [| x l Hl IH Hx]; intros i j a b Hij Hi Hj.
  - discriminate.
  - destruct i as [| i], j as [| j]; cbn in Hi, Hj; try lia.
    + injection Hi as ->. injection Hj as ->. lia.
    + injection Hi as ->. rewrite Forall_forall in Hx.
      apply (Hx b). eapply list_elem_of_lookup_2. exact Hj.
    + apply (IH i j); [lia | assumption ..].
Qed.

Lemma scan_rows_ranked (rows : list (Z * Z)) : forall acc,
  Forall (fun row => is_int64 row.2) rows ->
  exists ranks, scan_rows rows acc = Done (acc ++ ranks) /\ Forall2 ranked rows ranks.
Proof.
  induction rows as [| [userID dbValue] rows IH]; intros acc Hrows.
  - exists []. rewrite app_nil_r. split; [reflexivity | constructor].
  - apply Forall_cons in Hrows as [Hrow Hrows]. cbn [snd] in Hrow.
    destruct (ContinuousDays_spec dbValue Hrow) as (n & Hn & _).
    cbn [scan_rows]. unfold FromInt64. rewrite Hn. cbn [bind].
    destruct (IH (acc ++ [{| rank_UserID := userID; rank_Record := dbValue;
                            rank_ContinuousDays := n |}]) Hrows)
      as (ranks & -> & Hranked).
    eexists (_ :: ranks). rewrite <- app_assoc. split; [reflexivity |].
    constructor; [| exact Hranked]. repeat split. exact Hn.
Qed.

Lemma rank_entry_of (r : userRank) :
  is_int64 (rank_Record r) -> rank_entry r = Done (entry_of r).
Proof.
  intros Hr. unfold rank_entry, FromInt64.
  rewrite TotalDaysInPeriod_popcount, StringWithDays_glyphs by assumption.
  reflexivity.
Qed.

Lemma ranked_int64 rows ranks :
  Forall (fun row => is_int64 row.2) rows -> Forall2 ranked rows ranks ->
  Forall (fun r => is_int64 (rank_Record r)) ranks.
Proof.
  intros Hrows Hranked. induction Hranked as [| row r rows ranks (_ & Hrec & _) _ IH].
  - constructor.
  - apply Forall_cons in Hrows as [Hrow Hrows]. constructor; [| now apply IH].
    now rewrite Hrec.
Qed.

Lemma entries_loop (ranks : list userRank) :
  Forall (fun r => is_int64 (rank_Record r)) ranks ->
  for_range 0 (Z.of_nat (length ranks))
    (fun i result =>
       let* r := at_index ranks i in
       let* entry := rank_entry r in
       let* result := assign result i entry in
       Done (Next result))
    (replicate (length ranks) ∅) =
  Done (entry_of <$> ranks).
Proof.
  intros Hranks.
  match goal with
  | |- for_range 0 _ ?body ?s0 = _ =>
      destruct (for_range_rule body
                  (fun k result =>
                     result = (entry_of <$> take (Z.to_nat k) ranks) ++
                              replicate (length ranks - Z.to_nat k) ∅)
                  (fun _ => False) 0 (Z.of_nat (length ranks)) s0)
        as (result & Hrun & Hpost)
  end.
  - lia.
  - cbn [Z.to_nat take fmap list_fmap app]. now rewrite Nat.sub_0_r.
  - intros k result Hk ->. left.
    destruct (lookup_lt_is_Some_2 ranks (Z.to_nat k) ltac:(lia)) as [r Hr].
    unfold at_index. destruct (Z.ltb_spec k 0); [lia |]. rewrite Hr. cbn [bind].
    rewrite rank_entry_of
      by (rewrite Forall_forall in Hranks; apply Hranks;
          eapply list_elem_of_lookup_2; exact Hr).
    cbn [bind].
    replace (length ranks - Z.to_nat k)%nat
      with (S (length ranks - Z.to_nat (k + 1))) by lia.
    cbn [replicate].
    rewrite assign_middle by (rewrite length_fmap, length_take; lia).
    cbn [bind]. eexists. split; [reflexivity |].
    replace (Z.to_nat (k + 1)) with (S (Z.to_nat k)) by lia.
    rewrite (take_S_r ranks (Z.to_nat k) r Hr), fmap_app, <- app_assoc. reflexivity.
  - destruct Hpost as [-> | []]. rewrite Hrun, Nat2Z.id, Nat.sub_diag, take_ge by lia.
    cbn [replicate]. now rewrite app_nil_r.
Qed.

(** X17: for a limit that is not negative and rows whose records are
    int64, the leaderboard ends normally with one map for each of the
    first [limit] ranks, or for all of them if they are fewer, in the order
    of the sort: streaks never increase down the board, and every map
    holds the user, the streak, the total of 7 days and the string of 7
    days of a row that was given. *)
Theorem GetCheckinLeaderboard_top (rows : list (Z * Z)) (limit : Z) :
  0 <= limit ->
  Forall (fun row => is_int64 row.2) rows ->
  exists ranks sorted,
    Forall2 ranked rows ranks /\
    sorted ≡ₚ ranks /\
    StronglySorted by_streak sorted /\
    GetCheckinLeaderboard rows limit =
    Done (entry_of <$> take (Z.to_nat limit) sorted) /\
    length (take (Z.to_nat limit) sorted) = Nat.min (Z.to_nat limit) (length rows).
Proof.
  intros Hlimit Hrows.
  destruct (scan_rows_ranked rows [] Hrows) as (ranks & Hscan & Hranked).
  destruct (sort_ranks_sorts ranks) as (sorted & Hsort & Hperm & Hsorted).
  exists ranks, sorted. split; [exact Hranked |]. split; [exact Hperm |].
  split; [exact Hsorted |]. split.
  - unfold GetCheckinLeaderboard. rewrite Hscan. cbn [app bind]. rewrite Hsort.
    cbn [bind].
    assert (Hcut : (if Z.of_nat (length sorted) >? limit then slice_to sorted limit
                    else Done sorted) = Done (take (Z.to_nat limit) sorted)).
    { destruct (Z.gtb_spec (Z.of_nat (length sorted)) limit).
      - unfold slice_to. destruct (Z.ltb_spec limit 0); [lia |].
        destruct (Z.ltb_spec (Z.of_nat (length sorted)) limit); [lia | reflexivity].
      - now rewrite take_ge by lia. }
    rewrite Hcut. cbn [bind]. apply entries_loop. apply Forall_take.
    rewrite Hperm. now apply (ranked_int64 rows).
  - rewrite length_take. apply Permutation_length in Hperm.
    apply Forall2_length in Hranked. lia.
Qed.

Lemma GetCheckinLeaderboard_top_witness :
  0 <= 1 /\
  Forall (fun row => is_int64 row.2) [(1, 3); (2, 127)] /\
  exists ranks sorted,
    Forall2 ranked [(1, 3); (2, 127)] ranks /\
    sorted ≡ₚ ranks /\
    StronglySorted by_streak sorted /\
    GetCheckinLeaderboard [(1, 3); (2, 127)] 1 =
    Done (entry_of <$> take (Z.to_nat 1) sorted) /\
    length (take (Z.to_nat 1) sorted) = Nat.min (Z.to_nat 1) (length [(1, 3); (2, 127)]).
Proof.
  assert (Hl : 0 <= 1) by lia.
  assert (Hrows : Forall (fun row => is_int64 row.2) [(1, 3); (2, 127)])
    by (repeat constructor; apply is_int64b_spec; reflexivity).
  split; [exact Hl |]. split; [exact Hrows |].
  exact (GetCheckinLeaderboard_top [(1, 3); (2, 127)] 1 Hl Hrows).
Defined.

(** ** Checking in through the service *)

Lemma alter_present (table : gmap Z Z) (k v w : Z) :
  table !! k = Some w -> alter (fun _ => v) k table = <[k := v]> table.
Proof.
  intros Hk. apply map_eq. intros j. rewrite lookup_alter, lookup_insert.
  destruct (decide (k = j)); [| reflexivity]. now rewrite Hk.
Qed.

Lemma IsCheckedToday_Checkin c : IsCheckedToday (Checkin c) = true.
Proof. now rewrite IsCheckedToday_bit, Checkin_bit. Qed.

(** How [UserCheckin] ends, by the row of the user. *)
Lemma UserCheckin_cases (table : gmap Z Z) (userID : Z) :
  UserCheckin {| Sql.online := true; Sql.user_checkin := table |} userID =
  match table !! userID with
  | None =>
      ({| Sql.online := true; Sql.user_checkin := <[userID := Checkin 0]> table |},
       None)
  | Some record =>
      if IsCheckedToday record then
        ({| Sql.online := true; Sql.user_checkin := table |}, Some AlreadyCheckedToday)
      else if record =? 0 then
        ({| Sql.online := true; Sql.user_checkin := table |},
         Some (ExecFailed Sql.ErrDuplicateEntry))
      else
        ({| Sql.online := true; Sql.user_checkin := <[userID := Checkin record]> table |},
         None)
  end.
Proof.
  unfold UserCheckin, Sql.select_record. cbn [Sql.online Sql.user_checkin].
  destruct (table !! userID) as [record |] eqn:Hrow.
  - unfold FromInt64, ToInt64. destruct (IsCheckedToday record); [reflexivity |].
    destruct (record =? 0).
    + unfold Sql.insert_record. cbn [Sql.online Sql.user_checkin]. now rewrite Hrow.
    + unfold Sql.update_record. cbn [Sql.online Sql.user_checkin fmap option_fmap option_map].
      now rewrite (alter_present table userID _ record Hrow).
  - unfold FromInt64, ToInt64. cbn [IsCheckedToday Z.land Z.eqb].
    unfold Sql.insert_record. cbn [Sql.online Sql.user_checkin]. now rewrite Hrow.
Qed.

Lemma UserCheckin_offline (table : gmap Z Z) (userID : Z) :
  UserCheckin {| Sql.online := false; Sql.user_checkin := table |} userID =
  ({| Sql.online := false; Sql.user_checkin := table |},
   Some (QueryFailed Sql.ErrBadConn)).
Proof. reflexivity. Qed.

(** X18: with the database reachable, for a user who has no row, or whose
    row holds a record other than the empty one in which today is not
    checked, [UserCheckin] returns no error and leaves the table with the
    user's record checked in for today, every other row as it was; the
    service then answers that the user has checked in today. *)
Theorem UserCheckin_stores_today (db : Sql.DB) (userID : Z) :
  Sql.online db = true ->
  Sql.user_checkin db !! userID <> Some 0 ->
  IsCheckedToday (default 0 (Sql.user_checkin db !! userID)) = false ->
  let db' :=
    {| Sql.online := true;
       Sql.user_checkin :=
         <[userID := Checkin (default 0 (Sql.user_checkin db !! userID))]>
           (Sql.user_checkin db) |} in
  UserCheckin db userID = (db', None) /\
  IsCheckedToday_ db' userID = inr true.
Proof.
  destruct db as [on table]. cbn [Sql.online Sql.user_checkin].
  intros -> Hrow Htoday. split.
  - rewrite UserCheckin_cases. destruct (table !! userID) as [record |]; [| reflexivity].
    cbn [default from_option id] in *. rewrite Htoday.
    destruct (Z.eqb_spec record 0) as [-> | _]; [congruence | reflexivity].
  - unfold IsCheckedToday_, Sql.select_record. cbn [Sql.online Sql.user_checkin].
    rewrite lookup_insert_eq. unfold FromInt64. now rewrite IsCheckedToday_Checkin.
Qed.

Lemma UserCheckin_stores_today_witness :
  let db := {| Sql.online := true; Sql.user_checkin := {[ 7 := 6 ]} |} in
  Sql.online db = true /\
  Sql.user_checkin db !! 7 <> Some 0 /\
  IsCheckedToday (default 0 (Sql.user_checkin db !! 7)) = false /\
  let db' :=
    {| Sql.online := true;
       Sql.user_checkin :=
         <[7 := Checkin (default 0 (Sql.user_checkin db !! 7))]>
           (Sql.user_checkin db) |} in
  UserCheckin db 7 = (db', None) /\
  IsCheckedToday_ db' 7 = inr true.
Proof.
  intros db.
  assert (H1 : Sql.online db = true) by reflexivity.
  assert (H2 : Sql.user_checkin db !! 7 <> Some 0) by (vm_compute; discriminate).
  assert (H3 : IsCheckedToday (default 0 (Sql.user_checkin db !! 7)) = false)
    by reflexivity.
  split; [exact H1 |]. split; [exact H2 |]. split; [exact H3 |].
  exact (UserCheckin_stores_today db 7 H1 H2 H3).
Defined.



(** X20: for a user whose row holds the empty record, as a row does after
    64 shifts without a check-in, [UserCheckin] takes the row for a
    missing one: it inserts, the primary key refuses the second row, and
    the call returns that error with the check-in not stored. *)
Theorem UserCheckin_empty_record_not_stored (db : Sql.DB) (userID : Z) :
  Sql.online db = true ->
  Sql.user_checkin db !! userID = Some 0 ->
  UserCheckin db userID = (db, Some (ExecFailed Sql.ErrDuplicateEntry)).
Proof.
  destruct db as [on table]. cbn [Sql.online Sql.user_checkin]. intros -> Hrow.
  rewrite UserCheckin_cases. unfold CheckinRecord. now rewrite Hrow.
Qed.

Lemma UserCheckin_empty_record_not_stored_witness :
  let db := {| Sql.online := true; Sql.user_checkin := {[ 7 := 0 ]} |} in
  Sql.online db = true /\
  Sql.user_checkin db !! 7 = Some 0 /\
  UserCheckin db 7 = (db, Some (ExecFailed Sql.ErrDuplicateEntry)).
Proof.
  intros db.
  assert (H1 : Sql.online db = true) by reflexivity.
  assert (H2 : Sql.user_checkin db !! 7 = Some 0) by reflexivity.
  split; [exact H1 |]. split; [exact H2 |].
  exact (UserCheckin_empty_record_not_stored db 7 H1 H2).
Defined.

(** X21: whatever the table holds and whether the database is reachable
    or not, [UserCheckin] leaves the row of every other user as it was;
    when it returns the error of the query, or the refusal of a second
    check-in of the day, it returns before any statement that writes and
    the table is as it was, and it refuses only a user whose row holds a
    record with today checked; when it returns no error the user's row
    holds the record it read, the empty one if there was no row, with
    today checked in. *)
Theorem UserCheckin_touches_one_row (db db' : Sql.DB) (userID : Z)
    (err : option error) :
  UserCheckin db userID = (db', err) ->
  (forall other, other <> userID ->
     Sql.user_checkin db' !! other = Sql.user_checkin db !! other) /\
  (forall e, err = Some (QueryFailed e) -> db' = db) /\
  (err = Some AlreadyCheckedToday ->
     db' = db /\
     exists record,
       Sql.user_checkin db !! userID = Some record /\
       IsCheckedToday record = true) /\
  (err = None ->
     Sql.user_checkin db' !! userID =
     Some (Checkin (default 0 (Sql.user_checkin db !! userID)))).
Proof.
  destruct db as [[|] table].
  - rewrite UserCheckin_cases. cbn [Sql.online Sql.user_checkin].
    destruct (table !! userID) as [record |] eqn:Hrow;
      [destruct (IsCheckedToday record) eqn:Htoday; [| destruct (record =? 0)] |];
      intros [= <- <-]; cbn [Sql.online Sql.user_checkin default from_option id];
      repeat split; try congruence; intros;
      try (rewrite lookup_insert_ne by congruence; reflexivity);
      try apply lookup_insert_eq.
    now exists record.
  - rewrite UserCheckin_offline. intros [= <- <-]. repeat split; congruence.
Qed.

Lemma UserCheckin_touches_one_row_witness :
  let db := {| Sql.online := true; Sql.user_checkin := {[ 7 := 6 ]} |} in
  let db' := {| Sql.online := true; Sql.user_checkin := <[8 := 1]> {[ 7 := 6 ]} |} in
  UserCheckin db 8 = (db', None) /\
  (forall other, other <> 8 ->
     Sql.user_checkin db' !! other = Sql.user_checkin db !! other) /\
  (forall e, @None error = Some (QueryFailed e) -> db' = db) /\
  (@None error = Some AlreadyCheckedToday ->
     db' = db /\
     exists record,
       Sql.user_checkin db !! 8 = Some record /\
       IsCheckedToday record = true) /\
  (@None error = None ->
     Sql.user_checkin db' !! 8 =
     Some (Checkin (default 0 (Sql.user_checkin db !! 8)))).
Proof.
  intros db db'.
  assert (H : UserCheckin db 8 = (db', None)) by reflexivity.
  split; [exact H |]. exact (UserCheckin_touches_one_row db db' 8 None H).
Defined.

(** ** The statistics of the service *)

(** X22: for a user whose row holds an int64 the statistics are the map
    of exactly the seven keys [continuous_days], [total_7days],
    [total_30days], [max_continuous], [rate_7days], [recent_7days] and
    [bitmap_7days], with the values of the record's operations, the rate
    being the float64 quotient of the days checked among the last 7 by 7;
    for a user without a row they are the map of exactly the first six of
    these keys, with zeros, the float64 0.0 and seven glyphs of days not
    checked: the key [bitmap_7days] is missing from it. *)
Theorem GetUserCheckinStats_keys (table : gmap Z Z) (userID other c : Z) :
  table !! userID = Some c -> is_int64 c -> table !! other = None ->
  let db := {| Sql.online := true; Sql.user_checkin := table |} in
  (exists m n longest,
     GetUserCheckinStats db userID = Done (inr m) /\
     ContinuousDays c = Done n /\ MaxContinuousDays c = Done longest /\
     dom m =
       list_to_set (C := gset string)
         ["continuous_days"; "total_7days"; "total_30days"; "max_continuous";
          "rate_7days"; "recent_7days"; "bitmap_7days"] /\
     size m = 7%nat /\
     m !! "continuous_days" = Some (VInt n) /\
     m !! "total_7days" = Some (VInt (popcount c 7)) /\
     m !! "total_30days" = Some (VInt (popcount c 30)) /\
     m !! "max_continuous" = Some (VInt longest) /\
     m !! "rate_7days" =
       Some (VFloat (Float64.div (Float64.of_int (popcount c 7)) (Float64.of_int 7))) /\
     m !! "recent_7days" = Some (VString (glyphs (reverse (day_bits c 7)))) /\
     m !! "bitmap_7days" = Some (VBools (day_bits c 7))) /\
  (exists m0,
     GetUserCheckinStats db other = Done (inr m0) /\
     dom m0 =
       list_to_set (C := gset string)
         ["continuous_days"; "total_7days"; "total_30days"; "max_continuous";
          "rate_7days"; "recent_7days"] /\
     size m0 = 6%nat /\
     m0 !! "continuous_days" = Some (VInt 0) /\
     m0 !! "total_7days" = Some (VInt 0) /\
     m0 !! "total_30days" = Some (VInt 0) /\
     m0 !! "max_continuous" = Some (VInt 0) /\
     m0 !! "rate_7days" = Some (VFloat (S754_zero false)) /\
     m0 !! "recent_7days" = Some (VString (glyphs (reverse (day_bits 0 7)))) /\
     m0 !! "bitmap_7days" = None).
Proof.
  intros Hrow Hc Hother db. split.
  - destruct (ContinuousDays_spec c Hc) as (n & Hn & _).
    destruct (MaxContinuousDays_scan c Hc) as (longest & Hlongest & _).
    eexists _, n, longest.
    unfold GetUserCheckinStats, Sql.select_record, db, FromInt64.
    cbn [Sql.online Sql.user_checkin]. unfold CheckinRecord in *.
    rewrite Hrow, Hn, Hlongest.
    rewrite !TotalDaysInPeriod_popcount, CheckinRate_positive,
      StringWithDays_glyphs, GetDaysBitmap_day_bits by (assumption || lia).
    cbn [bind]. repeat split; reflexivity.
  - eexists. unfold GetUserCheckinStats, Sql.select_record, db.
    cbn [Sql.online Sql.user_checkin]. rewrite Hother. repeat split; reflexivity.
Qed.

Lemma GetUserCheckinStats_keys_witness :
  let table : gmap Z Z := {[ 7 := 93 ]} in
  table !! 7 = Some 93 /\ is_int64 93 /\ table !! 8 = None /\
  let db := {| Sql.online := true; Sql.user_checkin := table |} in
  (exists m n longest,
     GetUserCheckinStats db 7 = Done (inr m) /\
     ContinuousDays 93 = Done n /\ MaxContinuousDays 93 = Done longest /\
     dom m =
       list_to_set (C := gset string)
         ["continuous_days"; "total_7days"; "total_30days"; "max_continuous";
          "rate_7days"; "recent_7days"; "bitmap_7days"] /\
     size m = 7%nat /\
     m !! "continuous_days" = Some (VInt n) /\
     m !! "total_7days" = Some (VInt (popcount 93 7)) /\
     m !! "total_30days" = Some (VInt (popcount 93 30)) /\
     m !! "max_continuous" = Some (VInt longest) /\
     m !! "rate_7days" =
       Some (VFloat (Float64.div (Float64.of_int (popcount 93 7)) (Float64.of_int 7))) /\
     m !! "recent_7days" = Some (VString (glyphs (reverse (day_bits 93 7)))) /\
     m !! "bitmap_7days" = Some (VBools (day_bits 93 7))) /\
  (exists m0,
     GetUserCheckinStats db 8 = Done (inr m0) /\
     dom m0 =
       list_to_set (C := gset string)
         ["continuous_days"; "total_7days"; "total_30days"; "max_continuous";
          "rate_7days"; "recent_7days"] /\
     size m0 = 6%nat /\
     m0 !! "continuous_days" = Some (VInt 0) /\
     m0 !! "total_7days" = Some (VInt 0) /\
     m0 !! "total_30days" = Some (VInt 0) /\
     m0 !! "max_continuous" = Some (VInt 0) /\
     m0 !! "rate_7days" = Some (VFloat (S754_zero false)) /\
     m0 !! "recent_7days" = Some (VString (glyphs (reverse (day_bits 0 7)))) /\
     m0 !! "bitmap_7days" = None).
Proof.
  intros table.
  assert (H1 : table !! 7 = Some 93) by reflexivity.
  assert (H2 : is_int64 93) by (apply is_int64b_spec; reflexivity).
  assert (H3 : table !! 8 = None) by reflexivity.
  split; [exact H1 |]. split; [exact H2 |]. split; [exact H3 |].
  exact (GetUserCheckinStats_keys table 7 8 93 H1 H2 H3).
Defined.

(** ** The binary form of records that are not negative *)

(** X23: for a record with some day checked and day 63 not checked,
    [Binary] is the prefix [0b] followed by the 64 bits of the record, the
    most significant first, without the zeros in front. *)
Theorem Binary_is_raw_pattern (c : CheckinRecord) :
  is_int64 c -> c <> 0 -> bit c 63 = false ->
  Binary c = ("0b" ++ raw_pattern c)%string.
Proof.
  intros Hc Hne H63. rewrite int64_sign_bit in H63 by assumption.
  destruct (Z.ltb_spec c 0); [discriminate |].
  unfold Binary, raw_pattern. f_equal.
  destruct c as [| u | u]; try lia. cbn [Fmt.verb_b].
  symmetry. apply digits2_pattern. unfold is_int64, max_int64 in Hc.
  change (2 ^ Z.of_nat 64) with (2 ^ 64). rewrite pow2_64. rewrite pow2_63 in Hc. lia.
Qed.

Lemma Binary_is_raw_pattern_witness :
  is_int64 93 /\ 93 <> 0 /\ bit 93 63 = false /\
  Binary 93 = ("0b" ++ raw_pattern 93)%string.
Proof.
  assert (H1 : is_int64 93) by (apply is_int64b_spec; reflexivity).
  assert (H2 : 93 <> 0) by lia.
  assert (H3 : bit 93 63 = false) by reflexivity.
  split; [exact H1 |]. split; [exact H2 |]. split; [exact H3 |].
  exact (Binary_is_raw_pattern 93 H1 H2 H3).
Defined.

(** X24: for a record that is not empty and has the days 62 and 63 not
    checked, the binary form after a shift is the binary form before it
    with one more digit 0 at the end. *)
Theorem Binary_after_ShiftDay (c : CheckinRecord) :
  0 < c < 2 ^ 62 ->
  Binary (ShiftDay c) = (Binary c ++ "0")%string.
Proof.
  intros Hc. unfold ShiftDay, shl64. rewrite Z.shiftl_mul_pow2 by lia.
  rewrite wrap64_id
    by (unfold is_int64, min_int64, max_int64; rewrite pow2_63;
        change (2 ^ 62) with 4611686018427387904 in Hc; lia).
  destruct c as [| u | u]; try lia.
  replace (Z.pos u * 2 ^ 1) with (Z.pos u~0) by lia. unfold Binary. cbn [Fmt.verb_b Fmt.digits2].
  rewrite digits2_buf. now rewrite <- string_app_assoc.
Qed.

Lemma Binary_after_ShiftDay_witness :
  0 < 5 < 2 ^ 62 /\ Binary (ShiftDay 5) = (Binary 5 ++ "0")%string.
Proof.
  assert (H : 0 < 5 < 2 ^ 62) by (split; reflexivity).
  split; [exact H |]. exact (Binary_after_ShiftDay 5 H).
Defined.

(** ** Totals after a shift *)

(** X25: after a shift the total of a window of [n] days, for
    [2 <= n <= 64], is the total that the window of [n - 1] days had
    before the shift: the new day is not checked and the oldest day of the
    window has left it. *)
Theorem TotalDaysInPeriod_after_ShiftDay (c : CheckinRecord) (n : Z) :
  is_int64 c -> 2 <= n <= 64 ->
  TotalDaysInPeriod (ShiftDay c) n = TotalDaysInPeriod c (n - 1).
Proof.
  intros Hc Hn.
  pose proof (clampedDays_cases n) as [_ Hw].
  pose proof (clampedDays_cases (n - 1)) as [_ Hw'].
  rewrite !TotalDaysInPeriod_popcount by (assumption || apply ShiftDay_int64).
  rewrite Hw, Hw' by lia. f_equal.
  rewrite <- !count_true_day_bits, day_bits_ShiftDay by lia. reflexivity.
Qed.

Lemma TotalDaysInPeriod_after_ShiftDay_witness :
  is_int64 85 /\ 2 <= 7 <= 64 /\
  TotalDaysInPeriod (ShiftDay 85) 7 = TotalDaysInPeriod 85 (7 - 1).
Proof.
  assert (H : is_int64 85) by (apply is_int64b_spec; reflexivity).
  assert (Hn : 2 <= 7 <= 64) by lia.
  split; [exact H |]. split; [exact Hn |].
  exact (TotalDaysInPeriod_after_ShiftDay 85 7 H Hn).
Defined.
